(** * Multi-armed-bandit simulation: a shallow embedding of
      [bandit_simulations.py] and the properties of its policies, episode
      runner and experiment driver.

    Conventions of the embedding.

    - A float64 value is modelled by the rational it denotes ([Q]).  Every
      quantity the episode runner stores in the belief state is an integer
      count, which float64 holds exactly below 2^53; comparisons are the
      exact ones of [Q].  A division by zero, which the numeric library
      answers with inf or nan and a warning, is the 0 of [Qdiv] here;
      [divisors_positive] shows that no episode divides by zero.
    - [np.sqrt] and [np.log] are functions of the numeric library, not of
      this repository: they are parameters ([np_sqrt], [np_log]) of the
      two UCB policies.
    - A numpy vector is a [list]; a K x 2 belief matrix is a list of rows
      [(successes, failures)]; a 2-d array is a list of rows.
    - The process-wide random source is threaded explicitly as a state of an
      arbitrary type [G] with the three draws the program uses
      ([RandomSource]); [pm.rbeta] on two vectors is one of them, taken
      whole: how the sampling library produces the samples is its own.
    - The policies, the episode runner and the driver are written as
      functions of the values of their arrays.  The runner is written a
      second time over a store of arrays that are updated in place
      ([run_bandit_dynamic_alg_in_store]); [run_in_store_reading] shows
      that the two compute the same.
    - A Python exception is the [Raise] outcome; the [while] loop of
      [epsilon_greedy] is bounded by a fuel argument and [OutOfFuel] is the
      outcome of a run that needs more iterations than the fuel given. *)

From Stdlib Require Import ZArith QArith Qminmax Lia Lqa.
From stdpp Require Import base list relations.

Set Default Proof Using "Type".

(** ** Outcomes of a computation *)

Inductive exn : Set := ValueError | IndexError.

Inductive outcome (A : Type) : Type :=
| Ret (a : A)
| Raise (e : exn)
| OutOfFuel.

Arguments Ret {A} a.
Arguments Raise {A} e.
Arguments OutOfFuel {A}.

#[global] Instance outcome_ret : MRet outcome := fun A a => Ret a.

#[global] Instance outcome_bind : MBind outcome := fun A B k m =>
  match m with
  | Ret a => k a
  | Raise e => Raise e
  | OutOfFuel => OutOfFuel
  end.

(** [l[i]] of Python: an index past the end raises [IndexError]. *)
Definition getitem {A : Type} (l : list A) (i : nat) : outcome A :=
  match l !! i with
  | Some x => Ret x
  | None => Raise IndexError
  end.

(** A [for] loop over a list of indices whose body may raise. *)
Fixpoint for_each {S I : Type} (body : I -> S -> outcome S) (l : list I) (s : S)
  : outcome S :=
  match l with
  | [] => Ret s
  | i :: l' => s' ← body i s; for_each body l' s'
  end.

(** ** The numeric library *)

Module Np.

Definition ltb (x y : Q) : bool := negb (Qle_bool y x).

(** [v.sum()] of a vector. *)
Definition sum (v : list Q) : Q := fold_left Qplus v 0%Q.

(** [np.cumsum]. *)
Fixpoint cumsum_from (acc : Q) (v : list Q) : list Q :=
  match v with
  | [] => []
  | x :: v' => (acc + x)%Q :: cumsum_from (acc + x)%Q v'
  end.

Definition cumsum (v : list Q) : list Q := cumsum_from 0%Q v.

(** [np.argmax]: the scan keeps the first maximal entry; it replaces the
    running maximum only by an entry that is not [<=] it. *)
Fixpoint argmax_from (mp : Q) (mi i : nat) (v : list Q) : nat :=
  match v with
  | [] => mi
  | x :: v' =>
      if negb (Qle_bool x mp) then argmax_from x i (S i) v'
      else argmax_from mp mi (S i) v'
  end.

Definition argmax (v : list Q) : outcome nat :=
  match v with
  | [] => Raise ValueError
  | x :: v' => Ret (argmax_from x 0 1 v')
  end.

(** [np.argmin]: the same scan with [>=]. *)
Fixpoint argmin_from (mp : Q) (mi i : nat) (v : list Q) : nat :=
  match v with
  | [] => mi
  | x :: v' =>
      if negb (Qle_bool mp x) then argmin_from x i (S i) v'
      else argmin_from mp mi (S i) v'
  end.

Definition argmin (v : list Q) : outcome nat :=
  match v with
  | [] => Raise ValueError
  | x :: v' => Ret (argmin_from x 0 1 v')
  end.

(** [np.any(v < c)]. *)
Definition any_lt (v : list Q) (c : Q) : bool := existsb (fun x => ltb x c) v.

(** Elementwise operations on vectors of one shape. *)
Definition vadd : list Q -> list Q -> list Q := zip_with Qplus.
Definition vsub : list Q -> list Q -> list Q := zip_with Qminus.
Definition vdiv : list Q -> list Q -> list Q := zip_with Qdiv.

(** [np.max(m, 0)]: the maximum of each column; no row, no maximum. *)
Definition max_axis0 (m : list (list Q)) : outcome (list Q) :=
  match m with
  | [] => Raise ValueError
  | r :: m' => Ret (fold_left (zip_with Qmax) m' r)
  end.

(** [np.tile(v, (n, 1))]: [n] rows, each of them [v]. *)
Definition tile {A : Type} (v : list A) (n : nat) : list (list A) := replicate n v.

(** [np.zeros(n)]. *)
Definition zeros (n : nat) : list Q := replicate n 0%Q.

End Np.

(** ** The data model *)

(** One row per arm: (successes + prior_a, failures + prior_b). *)
Abbreviation BeliefState := (list (Q * Q)).

(** [estimated_beta_params.sum(1)]: the total of each row. *)
Definition row_sums (estimated_beta_params : BeliefState) : list Q :=
  (fun r => (r.1 + r.2)%Q) <$> estimated_beta_params.

(** [estimated_beta_params[:, 0]] and [estimated_beta_params[:, 1]]. *)
Definition column0 (estimated_beta_params : BeliefState) : list Q :=
  fst <$> estimated_beta_params.
Definition column1 (estimated_beta_params : BeliefState) : list Q :=
  snd <$> estimated_beta_params.

(** [estimated_beta_params.sum()]: every entry, in row-major order. *)
Definition sum_all (estimated_beta_params : BeliefState) : Q :=
  Np.sum (flat_map (fun r => [r.1; r.2]) estimated_beta_params).

(** The belief state [run_bandit_dynamic_alg] starts from:
    [np.zeros((K, 2))] with [prior_a] added to column 0 and [prior_b] to
    column 1. *)
Definition prior_a : Q := 1.
Definition prior_b : Q := 1.
Definition prior_beliefs (K : nat) : BeliefState :=
  replicate K ((0 + prior_a)%Q, (0 + prior_b)%Q).

(** [estimated_beta_params[this_choice, update_ind] += 1]. *)
Definition add_one (estimated_beta_params : BeliefState) (this_choice update_ind : nat)
  : outcome BeliefState :=
  match estimated_beta_params !! this_choice with
  | None => Raise IndexError
  | Some (a, b) =>
      match update_ind with
      | 0 => Ret (<[this_choice := ((a + 1)%Q, b)]> estimated_beta_params)
      | 1 => Ret (<[this_choice := (a, (b + 1)%Q)]> estimated_beta_params)
      | _ => Raise IndexError
      end
  end.

(** ** The random source *)

Class RandomSource (G : Type) : Type := {
  (** [np.random.rand()] *)
  rand : G -> Q * G;
  (** [np.random.randint(low, high)] for [low < high] *)
  randint : nat -> nat -> G -> nat * G;
  (** [pm.rbeta(a, b)] on two vectors of one length: a vector of samples,
      one per position *)
  rbeta : list Q -> list Q -> G -> list Q * G;
  rand_range : forall g, (0 <= (rand g).1 /\ (rand g).1 < 1)%Q;
  randint_range : forall low high g,
    low < high -> low <= (randint low high g).1 < high;
  rbeta_length : forall a b g,
    length a = length b -> length (rbeta a b g).1 = length a
}.

(** [np.random.randint(low, high)]: an empty range is a [ValueError]. *)
Definition np_randint {G : Type} `{RandomSource G} (low high : nat) (g : G)
  : outcome (nat * G) :=
  if low <? high then Ret (randint low high g) else Raise ValueError.

(** [np.random.rand(n)]: [n] draws, in order. *)
Fixpoint rand_vector {G : Type} `{RandomSource G} (n : nat) (g : G) : list Q * G :=
  match n with
  | 0 => ([], g)
  | S n' =>
      let '(u, g1) := rand g in
      let '(v, g2) := rand_vector n' g1 in
      (u :: v, g2)
  end.

(** [np.random.rand(n, k)]: [n] rows of [k] draws, row by row. *)
Fixpoint rand_matrix {G : Type} `{RandomSource G} (n k : nat) (g : G)
  : list (list Q) * G :=
  match n with
  | 0 => ([], g)
  | S n' =>
      let '(r, g1) := rand_vector k g in
      let '(m, g2) := rand_matrix n' k g1 in
      (r :: m, g2)
  end.

(** ** The policies *)

Section Policies.

Context {G : Type} `{RandomSource G}.
Variables np_sqrt np_log : Q -> Q.

(** What [run_bandit_dynamic_alg] receives as [choice_func]. *)
Definition Policy : Type := BeliefState -> G -> outcome (nat * G).

(** A policy that draws nothing leaves the random source as it is. *)
Definition as_choice (f : BeliefState -> outcome nat) : Policy :=
  fun estimated_beta_params g => c ← f estimated_beta_params; Ret (c, g).

Definition thompson_sampling : Policy := fun estimated_beta_params g =>
  let '(samples, g') :=
    rbeta (column0 estimated_beta_params) (column1 estimated_beta_params) g in
  c ← Np.argmax samples;
  Ret (c, g').

Definition random : Policy := fun estimated_beta_params g =>
  np_randint 0 (length estimated_beta_params) g.

(** The default values of the keyword arguments of [naive] and
    [epsilon_greedy]. *)
Definition number_to_explore_default : Q := 100.
Definition epsilon_default : Q := 0.01.

Definition naive (number_to_explore : Q) (estimated_beta_params : BeliefState)
  : outcome nat :=
  let totals := row_sums estimated_beta_params in
  if Np.any_lt totals number_to_explore then
    least_explored ← Np.argmin totals;
    Ret least_explored
  else
    let successes := column0 estimated_beta_params in
    let estimated_means := Np.vdiv successes totals in
    best_mean ← Np.argmax estimated_means;
    Ret best_mean.

(** The [while other_choice == best_mean] loop: each iteration draws again. *)
Fixpoint resample (fuel n best_mean other_choice : nat) (g : G)
  : outcome (nat * G) :=
  if other_choice =? best_mean then
    match fuel with
    | 0 => OutOfFuel
    | S fuel' =>
        '(other_choice', g') ← np_randint 0 n g;
        resample fuel' n best_mean other_choice' g'
    end
  else Ret (other_choice, g).

Definition epsilon_greedy (fuel : nat) (epsilon : Q) : Policy :=
  fun estimated_beta_params g =>
  let totals := row_sums estimated_beta_params in
  let successes := column0 estimated_beta_params in
  let estimated_means := Np.vdiv successes totals in
  best_mean ← Np.argmax estimated_means;
  let '(u, g1) := rand g in
  let be_exporatory := Np.ltb u epsilon in
  if be_exporatory then
    '(other_choice, g2) ← np_randint 0 (length estimated_beta_params) g1;
    resample fuel (length estimated_beta_params) best_mean other_choice g2
  else Ret (best_mean, g1).

Definition UCB (estimated_beta_params : BeliefState) : outcome nat :=
  let t := sum_all estimated_beta_params in
  let totals := row_sums estimated_beta_params in
  let successes := column0 estimated_beta_params in
  let estimated_means := Np.vdiv successes totals in
  let estimated_variances :=
    Np.vsub estimated_means ((fun m => m ^ 2)%Q <$> estimated_means) in
  let UCB :=
    Np.vadd estimated_means
      (np_sqrt <$>
         Np.vdiv
           ((fun x => x * np_log t)%Q <$>
              ((fun x => Qmin x 0.25) <$>
                 Np.vadd estimated_variances
                   (np_sqrt <$> ((fun n => 2 * np_log t / n)%Q <$> totals))))
           totals) in
  Np.argmax UCB.

Definition UCB_bernoulli (estimated_beta_params : BeliefState) : outcome nat :=
  let totals := row_sums estimated_beta_params in
  let successes := column0 estimated_beta_params in
  let estimated_means := Np.vdiv successes totals in
  let estimated_variances :=
    Np.vsub estimated_means ((fun m => m ^ 2)%Q <$> estimated_means) in
  let UCB :=
    Np.vadd estimated_means
      ((fun x => 1.96 * x)%Q <$> (np_sqrt <$> Np.vdiv estimated_variances totals)) in
  Np.argmax UCB.

(** ** The episode runner *)

(** The variables of the loop of [run_bandit_dynamic_alg].  [st_choices]
    is not a variable of the source: it records [this_choice] of every
    round so far, oldest first. *)
Record loop_state : Type := LoopState {
  st_params : BeliefState;
  st_regret : list Q;
  st_god_regret : list Q;
  st_choices : list nat;
  st_rng : G
}.

(** One iteration of [for i in range(0, num_samples)]. *)
Definition round (true_rewards : list (list bool)) (CTRs_that_generated_data : list (list Q))
    (bandit_distri : list Q) (best_bandit_idx : nat) (choice_func : Policy)
    (i : nat) (st : loop_state) : outcome loop_state :=
  '(this_choice, g') ← choice_func (st_params st) (st_rng st);
  rewards_i ← getitem true_rewards i;
  reward_choice ← getitem rewards_i this_choice;
  let update_ind := if (reward_choice : bool) then 0 else 1 in
  params' ← add_one (st_params st) this_choice update_ind;
  best_p ← getitem bandit_distri best_bandit_idx;
  CTRs_i ← getitem CTRs_that_generated_data i;
  p ← getitem CTRs_i this_choice;
  let regret' := <[i := (best_p - p)%Q]> (st_regret st) in
  reward_best ← getitem rewards_i best_bandit_idx;
  let god_regret' :=
    if (reward_best : bool) && negb reward_choice then <[i := 1%Q]> (st_god_regret st)
    else if negb reward_best && reward_choice then <[i := (-1)%Q]> (st_god_regret st)
    else <[i := 0%Q]> (st_god_regret st) in
  Ret {| st_params := params';
         st_regret := regret';
         st_god_regret := god_regret';
         st_choices := st_choices st ++ [this_choice];
         st_rng := g' |}.

(** The state before the first round.  [K] is the second component of
    [true_rewards.shape]. *)
Definition initial_state (num_samples K : nat) (g : G) : loop_state :=
  {| st_params := prior_beliefs K;
     st_regret := Np.zeros num_samples;
     st_god_regret := Np.zeros num_samples;
     st_choices := [];
     st_rng := g |}.

(** The first [n] rounds of an episode. *)
Definition run_rounds (n K : nat) (true_rewards : list (list bool))
    (CTRs_that_generated_data : list (list Q)) (choice_func : Policy) (g : G)
  : outcome loop_state :=
  let num_samples := length true_rewards in
  bandit_distri ← Np.max_axis0 CTRs_that_generated_data;
  best_bandit_idx ← Np.argmax bandit_distri;
  for_each (round true_rewards CTRs_that_generated_data bandit_distri
              best_bandit_idx choice_func)
           (seq 0 n) (initial_state num_samples K g).

Definition run_bandit_dynamic_alg (K : nat) (true_rewards : list (list bool))
    (CTRs_that_generated_data : list (list Q)) (choice_func : Policy) (g : G)
  : outcome (list Q * G) :=
  let num_samples := length true_rewards in
  st ← run_rounds num_samples K true_rewards CTRs_that_generated_data choice_func g;
  let cum_regret := Np.cumsum (st_regret st) in
  let god_cum_regret := Np.cumsum (st_god_regret st) in
  Ret (god_cum_regret, st_rng st).

End Policies.

Arguments LoopState {G}.
Arguments st_params {G}.
Arguments st_regret {G}.
Arguments st_god_regret {G}.
Arguments st_choices {G}.
Arguments st_rng {G}.

(** ** The experiment driver *)

Section Driver.

Context {G : Type} `{RandomSource G}.
Variables np_sqrt np_log : Q -> Q.

(** [u < c] on two arrays of one shape (the only case the program has). *)
Definition less_vector (u c : list Q) : outcome (list bool) :=
  if length u =? length c then Ret (zip_with Np.ltb u c) else Raise ValueError.

Fixpoint less_matrix (u c : list (list Q)) : outcome (list (list bool)) :=
  match u, c with
  | [], [] => Ret []
  | ru :: u', rc :: c' =>
      r ← less_vector ru rc;
      m ← less_matrix u' c';
      Ret (r :: m)
  | _, _ => Raise ValueError
  end.

(** [CTRs_that_generated_data] is the module-level variable the source
    function reads; here it is its first argument. *)
Definition generate_bernoulli_bandit_data (CTRs_that_generated_data : list (list Q))
    (num_samples K : nat) (g : G) : outcome (list (list bool) * G) :=
  let '(u, g') := rand_matrix num_samples K g in
  true_rewards ← less_matrix u CTRs_that_generated_data;
  Ret (true_rewards, g').

(** [regret_accumulator[:, j] += v]. *)
Definition add_to_column (regret_accumulator : list (list Q)) (j : nat) (v : list Q)
  : outcome (list (list Q)) :=
  if length regret_accumulator =? length v
  then Ret (zip_with (fun row x => alter (fun y => (y + x)%Q) j row) regret_accumulator v)
  else Raise ValueError.

(** One call of [run_bandit_dynamic_alg] as the driver makes it: the
    experiment, the column of the policy, and the two arrays passed. *)
Record call_record : Type := CallRecord {
  call_experiment : nat;
  call_column : nat;
  call_true_rewards : list (list bool);
  call_CTRs : list (list Q)
}.

(** The variables of the main loop; [d_calls] is not a variable of the
    source: it lists the calls made so far, oldest first. *)
Record driver_state : Type := DriverState {
  d_regret_accumulator : list (list Q);
  d_calls : list call_record;
  d_rng : G
}.

(** [regret_accumulator[:, j] += run_bandit_dynamic_alg(true_rewards,
    CTRs_that_generated_data, choice_func)]. *)
Definition run_and_accumulate (K i j : nat) (true_rewards : list (list bool))
    (CTRs_that_generated_data : list (list Q)) (choice_func : Policy)
    (s : driver_state) : outcome driver_state :=
  '(god_cum_regret, g') ←
    run_bandit_dynamic_alg K true_rewards CTRs_that_generated_data choice_func (d_rng s);
  acc' ← add_to_column (d_regret_accumulator s) j god_cum_regret;
  Ret {| d_regret_accumulator := acc';
         d_calls := d_calls s ++ [CallRecord i j true_rewards CTRs_that_generated_data];
         d_rng := g' |}.

(** The body of [for i in range(number_experiments)]. *)
Definition experiment (fuel num_samples K : nat)
    (CTRs_that_generated_data : list (list Q)) (i : nat) (s : driver_state)
  : outcome driver_state :=
  '(true_rewards, g0) ←
    generate_bernoulli_bandit_data CTRs_that_generated_data num_samples K (d_rng s);
  let s0 := {| d_regret_accumulator := d_regret_accumulator s;
               d_calls := d_calls s;
               d_rng := g0 |} in
  s1 ← run_and_accumulate K i 0 true_rewards CTRs_that_generated_data random s0;
  s2 ← run_and_accumulate K i 1 true_rewards CTRs_that_generated_data
         (as_choice (naive number_to_explore_default)) s1;
  s3 ← run_and_accumulate K i 2 true_rewards CTRs_that_generated_data
         (epsilon_greedy fuel epsilon_default) s2;
  s4 ← run_and_accumulate K i 3 true_rewards CTRs_that_generated_data
         (as_choice (UCB np_sqrt np_log)) s3;
  s5 ← run_and_accumulate K i 4 true_rewards CTRs_that_generated_data
         (as_choice (UCB_bernoulli np_sqrt)) s4;
  run_and_accumulate K i 5 true_rewards CTRs_that_generated_data
    thompson_sampling s5.

(** The module from its first line to the end of the main loop; the
    constants of its head are the arguments [num_samples], [K] and
    [number_experiments]. *)
Definition main (fuel num_samples K number_experiments : nat) (g : G)
  : outcome driver_state :=
  let '(v, g0) := rand_vector K g in
  let CTRs_that_generated_data := Np.tile v num_samples in
  let regret_accumulator := replicate num_samples (replicate 6 0%Q) in
  for_each (experiment fuel num_samples K CTRs_that_generated_data)
           (seq 0 number_experiments)
           {| d_regret_accumulator := regret_accumulator;
              d_calls := [];
              d_rng := g0 |}.

(** The program with the constants of the source. *)
Definition program (fuel : nat) (g : G) : outcome driver_state :=
  main fuel (100 * 100) 5 100 g.



End Driver.


(** ** The episode runner over the arrays of the process *)

(** An array of the program is an object that variables refer to:
    [estimated_beta_params[c, u] += 1], [regret[i] = x] and
    [god_regret[i] = x] change the object in place, for every holder of a
    reference, and the arrays that a call created stay in the process when
    it returns.  A [store] lists the arrays created so far, oldest first; a
    reference is a position in it. *)
Inductive array : Type :=
| BoolMatrix (m : list (list bool))
| FloatMatrix (m : list (list Q))
| BetaMatrix (bs : BeliefState)
| FloatVector (v : list Q).

Definition ref : Type := nat.
Definition store : Type := list array.

(** A new array: the store grows by one and the reference is to the new
    position. *)
Definition new_array (a : array) (s : store) : ref * store := (length s, s ++ [a]).

(** What a variable refers to.  In the program a reference is always to an
    array of the store and of the kind the variable holds; the other
    cases are a [Raise] here. *)
Definition load_bools (r : ref) (s : store) : outcome (list (list bool)) :=
  match s !! r with
  | Some (BoolMatrix m) => Ret m
  | Some _ => Raise ValueError
  | None => Raise IndexError
  end.

Definition load_floats (r : ref) (s : store) : outcome (list (list Q)) :=
  match s !! r with
  | Some (FloatMatrix m) => Ret m
  | Some _ => Raise ValueError
  | None => Raise IndexError
  end.

Definition load_beliefs (r : ref) (s : store) : outcome BeliefState :=
  match s !! r with
  | Some (BetaMatrix bs) => Ret bs
  | Some _ => Raise ValueError
  | None => Raise IndexError
  end.

Definition load_vector (r : ref) (s : store) : outcome (list Q) :=
  match s !! r with
  | Some (FloatVector v) => Ret v
  | Some _ => Raise ValueError
  | None => Raise IndexError
  end.

Section StoreRunner.

Context {G : Type} `{RandomSource G}.

(** A policy as the runner calls it: with a reference to the belief
    matrix, in the store of the moment. *)
Definition StorePolicy : Type := ref -> store -> G -> outcome (nat * store * G).

(** The six policies read the matrix they are given and build their
    results from it in arrays of their own ([.sum(1)], [successes / totals]
    and the like return new arrays, and no statement of a policy assigns
    into an array): the store is the same after the call. *)
Definition reading (choice_func : Policy) : StorePolicy :=
  fun estimated_beta_params s g =>
  bs ← load_beliefs estimated_beta_params s;
  '(c, g') ← choice_func bs g;
  Ret (c, s, g').

(** The store, the choices so far (not a variable of the source) and the
    random source, between two rounds. *)
Record store_state : Type := StoreState {
  ss_store : store;
  ss_choices : list nat;
  ss_rng : G
}.

(** One iteration of [for i in range(0, num_samples)], each array read
    through its reference when the statement reads it and updated in
    place. *)
Definition round_in_store (true_rewards CTRs_that_generated_data : ref)
    (bandit_distri : list Q) (best_bandit_idx : nat)
    (estimated_beta_params regret god_regret : ref) (choice_func : StorePolicy)
    (i : nat) (st : store_state) : outcome store_state :=
  '(this_choice, s1, g') ← choice_func estimated_beta_params (ss_store st) (ss_rng st);
  rewards ← load_bools true_rewards s1;
  rewards_i ← getitem rewards i;
  reward_choice ← getitem rewards_i this_choice;
  let update_ind := if (reward_choice : bool) then 0 else 1 in
  bs ← load_beliefs estimated_beta_params s1;
  params' ← add_one bs this_choice update_ind;
  let s2 := <[estimated_beta_params := BetaMatrix params']> s1 in
  best_p ← getitem bandit_distri best_bandit_idx;
  CTRs ← load_floats CTRs_that_generated_data s2;
  CTRs_i ← getitem CTRs i;
  p ← getitem CTRs_i this_choice;
  regret_v ← load_vector regret s2;
  let s3 := <[regret := FloatVector (<[i := (best_p - p)%Q]> regret_v)]> s2 in
  rewards' ← load_bools true_rewards s3;
  rewards_i' ← getitem rewards' i;
  reward_best ← getitem rewards_i' best_bandit_idx;
  reward_choice' ← getitem rewards_i' this_choice;
  god_regret_v ← load_vector god_regret s3;
  let s4 :=
    if (reward_best : bool) && negb reward_choice'
    then <[god_regret := FloatVector (<[i := 1%Q]> god_regret_v)]> s3
    else if negb reward_best && reward_choice'
    then <[god_regret := FloatVector (<[i := (-1)%Q]> god_regret_v)]> s3
    else <[god_regret := FloatVector (<[i := 0%Q]> god_regret_v)]> s3 in
  Ret {| ss_store := s4;
         ss_choices := ss_choices st ++ [this_choice];
         ss_rng := g' |}.

(** A call of [run_bandit_dynamic_alg] with references to the two arrays
    of the caller, in the store of the moment: it creates the three
    arrays that its loop assigns into, runs the rounds and returns the
    result of [np.cumsum] together with the state it leaves.
    [bandit_distri] and the results of [np.cumsum] are arrays that no
    statement assigns into: they are values here.  [K] is the second
    component of [true_rewards.shape]. *)
Definition run_bandit_dynamic_alg_in_store (K : nat)
    (true_rewards CTRs_that_generated_data : ref) (choice_func : StorePolicy)
    (s : store) (g : G) : outcome (list Q * store_state) :=
  rewards ← load_bools true_rewards s;
  let num_samples := length rewards in
  let '(estimated_beta_params, s1) := new_array (BetaMatrix (prior_beliefs K)) s in
  let '(regret, s2) := new_array (FloatVector (Np.zeros num_samples)) s1 in
  let '(god_regret, s3) := new_array (FloatVector (Np.zeros num_samples)) s2 in
  CTRs ← load_floats CTRs_that_generated_data s3;
  bandit_distri ← Np.max_axis0 CTRs;
  best_bandit_idx ← Np.argmax bandit_distri;
  st ← for_each (round_in_store true_rewards CTRs_that_generated_data bandit_distri
                   best_bandit_idx estimated_beta_params regret god_regret choice_func)
          (seq 0 num_samples)
          {| ss_store := s3; ss_choices := []; ss_rng := g |};
  regret_v ← load_vector regret (ss_store st);
  let cum_regret := Np.cumsum regret_v in
  god_regret_v ← load_vector god_regret (ss_store st);
  let god_cum_regret := Np.cumsum god_regret_v in
  Ret (god_cum_regret, st).

End StoreRunner.

Arguments StoreState {G}.
Arguments ss_store {G}.
Arguments ss_choices {G}.
Arguments ss_rng {G}.

(** ** A random source that replays a tape, and rational stand-ins for
       [np.sqrt] and [np.log]: the instances at which the model is run. *)

Module Tape.

(** The draws still to come; an exhausted tape keeps answering 0. *)
Definition tape : Type := list nat.

Definition next (g : tape) : nat * tape :=
  match g with
  | [] => (0, [])
  | n :: g' => (n, g')
  end.

(** Thousandths: [n] stands for the draw [(n mod 1000) / 1000]. *)
Definition tape_rand (g : tape) : Q * tape :=
  let '(n, g') := next g in (Z.of_nat (n mod 1000) # 1000, g').

Definition tape_randint (low high : nat) (g : tape) : nat * tape :=
  let '(n, g') := next g in (low + n mod (high - low), g').

(** A stand-in for the Beta quantile at level [u]: a value between
    (a - 1) / (a + b - 1) and a / (a + b - 1). *)
Definition quantile_approx (u a b : Q) : Q := ((a - 1 + u) / (a + b - 1))%Q.

(** One number of the tape for the call, and the quantile of every
    position at that level. *)
Definition tape_rbeta (a b : list Q) (g : tape) : list Q * tape :=
  let '(u, g') := tape_rand g in (zip_with (quantile_approx u) a b, g').

Lemma tape_rand_range (g : tape) :
  (0 <= (tape_rand g).1 /\ (tape_rand g).1 < 1)%Q.
Proof.
  unfold tape_rand. destruct (next g) as [n g']. cbn [fst].
  pose proof (Nat.mod_upper_bound n 1000 ltac:(lia)) as Hn.
  unfold Qle, Qlt. cbn [Qnum Qden]. lia.
Qed.

Lemma tape_randint_range (low high : nat) (g : tape) :
  low < high -> low <= (tape_randint low high g).1 < high.
Proof.
  intros Hlh. unfold tape_randint. destruct (next g) as [n g']. cbn [fst].
  pose proof (Nat.mod_upper_bound n (high - low) ltac:(lia)). lia.
Qed.

Lemma tape_rbeta_length (a b : list Q) (g : tape) :
  length a = length b -> length (tape_rbeta a b g).1 = length a.
Proof.
  intros Hlen. unfold tape_rbeta. destruct (tape_rand g) as [u g']. cbn [fst].
  rewrite length_zip_with. lia.
Qed.

#[global] Instance tape_source : RandomSource tape := {|
  rand := tape_rand;
  randint := tape_randint;
  rbeta := tape_rbeta;
  rand_range := tape_rand_range;
  randint_range := tape_randint_range;
  rbeta_length := tape_rbeta_length
|}.

(** Square root to six decimals. *)
Definition sqrt_approx (x : Q) : Q :=
  (Z.sqrt (Qnum x * 10 ^ 12 / Z.pos (Qden x)) # 10 ^ 6)%Z.

(** Natural logarithm from the binary logarithm of the 32nd power. *)
Definition log_approx (x : Q) : Q :=
  (Z.log2 (Qnum x ^ 32 / Z.pos (Qden x) ^ 32) * 693147 # 32 * 1000000)%Z.

End Tape.

(** ** Vocabulary of the statements *)

(** [k] is the position of the first greatest entry of [v]. *)
Definition first_max (v : list Q) (k : nat) : Prop :=
  exists x, v !! k = Some x
    /\ (forall j y, v !! j = Some y -> (y <= x)%Q)
    /\ (forall j y, j < k -> v !! j = Some y -> (y < x)%Q).

(** [k] is the position of the first least entry of [v]. *)
Definition first_min (v : list Q) (k : nat) : Prop :=
  exists x, v !! k = Some x
    /\ (forall j y, v !! j = Some y -> (x <= y)%Q)
    /\ (forall j y, j < k -> v !! j = Some y -> (x < y)%Q).

(** The empirical success rate of every arm: successes / total. *)
Definition empirical_means (bs : BeliefState) : list Q :=
  (fun r => (r.1 / (r.1 + r.2))%Q) <$> bs.

(** The index UCB-Tuned gives an arm, as the specification writes it:
    mean + sqrt(min(variance + sqrt(2 ln t / n_k), 0.25) * ln t / n_k)
    with variance = mean - mean^2. *)
Definition ucb_tuned_index_spec (sqrt ln : Q -> Q) (t n_k mean : Q) : Q :=
  let variance := (mean - mean ^ 2)%Q in
  (mean + sqrt (Qmin (variance + sqrt (2 * ln t / n_k)) 0.25 * ln t / n_k))%Q.


(** The index of the 95% variant: mean + 1.96 sqrt(variance / n_k). *)
Definition ucb_bernoulli_indices_spec (sqrt : Q -> Q) (bs : BeliefState) : list Q :=
  (fun r =>
     let n_k := r.1 + r.2 in
     let mean := r.1 / n_k in
     mean + 1.96 * sqrt ((mean - mean ^ 2) / n_k))%Q <$> bs.

(** The realized-regret signal of one round, as the specification words
    it, from the reward of the best true arm and that of the chosen arm. *)
Definition realized_regret_spec (best_reward chosen_reward : bool) : Q :=
  match best_reward, chosen_reward with
  | true, false => 1
  | false, true => -1
  | _, _ => 0
  end.

(** One update of the belief state by the episode runner. *)
Definition belief_step (bs bs' : BeliefState) : Prop :=
  exists this_choice update_ind, add_one bs this_choice update_ind = Ret bs'.

(** The belief states an episode can go through. *)
Definition reachable_beliefs (K : nat) (bs : BeliefState) : Prop :=
  rtc belief_step (prior_beliefs K) bs.

(** How often arm [k] was pulled in a sequence of choices. *)
Definition pulls (choices : list nat) (k : nat) : nat :=
  count_occ Nat.eq_dec choices k.

(** The [n]-th index the loop of [epsilon_greedy] draws after its first
    one, and the random source after that draw. *)
Fixpoint redraw {G : Type} `{RandomSource G} (n K : nat) (g : G) : nat * G :=
  match n with
  | 0 => randint 0 K g
  | S n' => redraw n' K (randint 0 K g).2
  end.

(** The six policies the driver compares, with the arguments it gives them. *)
Inductive policy_name : Set :=
| Random | Naive | EpsilonGreedy | UCBTuned | UCBBernoulli95 | ThompsonSampling.

#[global] Instance policy_name_eq_dec : EqDecision policy_name.
Proof. solve_decision. Defined.

Definition policy_of {G : Type} `{RandomSource G} (np_sqrt np_log : Q -> Q)
    (fuel : nat) (p : policy_name) : Policy :=
  match p with
  | Random => random
  | Naive => as_choice (naive number_to_explore_default)
  | EpsilonGreedy => epsilon_greedy fuel epsilon_default
  | UCBTuned => as_choice (UCB np_sqrt np_log)
  | UCBBernoulli95 => as_choice (UCB_bernoulli np_sqrt)
  | ThompsonSampling => thompson_sampling
  end.

(** A choice that came out, and inside [0, K). *)
Definition returns_arm_below {G : Type} (K : nat) (o : outcome (nat * G)) : Prop :=
  exists k g', o = Ret (k, g') /\ k < K.

(** Entry [(i, j)] of a 2-d array. *)
Definition entry {A : Type} (m : list (list A)) (i j : nat) : option A :=
  m !! i ≫= fun r => r !! j.

(** An array of [n] rows of [k] entries. *)
Definition has_shape {A : Type} (n k : nat) (m : list (list A)) : Prop :=
  length m = n /\ Forall (fun r => length r = k) m.

(** A computation that comes back with a result satisfying [P]; when
    [may_starve] holds it may also be stopped by the fuel.  Either way it
    does not raise. *)
Definition finishes {A : Type} (may_starve : Prop) (P : A -> Prop) (o : outcome A)
  : Prop :=
  (may_starve /\ o = OutOfFuel) \/ exists a, o = Ret a /\ P a.

(** A policy that, on every belief state of [K] arms, finishes with an
    arm of [0, K). *)
Definition policy_finishes {G : Type} (may_starve : Prop) (K : nat)
    (choice_func : BeliefState -> G -> outcome (nat * G)) : Prop :=
  forall bs g, length bs = K -> finishes may_starve (fun r => r.1 < K) (choice_func bs g).

(** The row totals after [i] rounds taken in turn: every arm has had
    [i / K] pulls and the first [i mod K] arms one more. *)
Definition swept (K i : nat) (bs : BeliefState) : Prop :=
  length bs = K
  /\ forall k a b, bs !! k = Some (a, b) ->
       (a + b == inject_Z (Z.of_nat (i / K)) + 2
                 + (if decide (k < i mod K)%nat then 1 else 0))%Q.

(** The three arrays that a call of [run_bandit_dynamic_alg] has created,
    with the contents that the variables of its loop have. *)
Definition episode_arrays {G : Type} (st : loop_state (G := G)) : list array :=
  [BetaMatrix (st_params st); FloatVector (st_regret st);
   FloatVector (st_god_regret st)].

(** The state of a call that found the store [s], when the variables of
    its loop are [st]. *)
Definition store_state_of {G : Type} (s : store) (st : loop_state (G := G))
  : store_state (G := G) :=
  {| ss_store := s ++ episode_arrays st;
     ss_choices := st_choices st;
     ss_rng := st_rng st |}.

(** * Properties *)

(** ** The scans of the numeric library *)

Lemma ltb_lt (x y : Q) : Np.ltb x y = true <-> (x < y)%Q.
Proof.
  unfold Np.ltb. rewrite negb_true_iff, <- not_true_iff_false, Qle_bool_iff.
  split; [apply Qnot_le_lt | apply Qlt_not_le].
Qed.

Lemma ltb_ge (x y : Q) : Np.ltb x y = false <-> (y <= x)%Q.
Proof. unfold Np.ltb. rewrite negb_false_iff. apply Qle_bool_iff. Qed.

Lemma argmax_from_first_max (v : list Q) :
  forall (pre : list Q) (mp : Q) (mi : nat),
    pre !! mi = Some mp ->
    (forall j y, pre !! j = Some y -> (y <= mp)%Q) ->
    (forall j y, j < mi -> pre !! j = Some y -> (y < mp)%Q) ->
    first_max (pre ++ v) (Np.argmax_from mp mi (length pre) v).
Proof.
  induction v as [|x v IH]; intros pre mp mi Hmi Hall Hbefore; cbn [Np.argmax_from].
  - rewrite app_nil_r. exists mp. auto.
  - replace (pre ++ x :: v) with ((pre ++ [x]) ++ v) by (rewrite <- app_assoc; reflexivity).
    replace (S (length pre)) with (length (pre ++ [x])) by (rewrite length_app; cbn; lia).
    destruct (Qle_bool x mp) eqn:Hle; cbn [negb].
    + apply Qle_bool_iff in Hle. apply IH.
      * apply lookup_app_l_Some, Hmi.
      * intros j y [[_ Hj]|[_ <-]]%lookup_snoc_Some; eauto.
      * intros j y Hlt [[_ Hj]|[-> _]]%lookup_snoc_Some; eauto.
        apply lookup_lt_Some in Hmi. lia.
    + assert (mp < x)%Q as Hlt.
      { apply Qnot_le_lt. intros Hc%Qle_bool_iff. congruence. }
      apply IH.
      * apply lookup_snoc_Some. right. split; reflexivity.
      * intros j y [[_ Hj]|[_ <-]]%lookup_snoc_Some; [|apply Qle_refl].
        apply Qle_trans with mp; [eauto | apply Qlt_le_weak, Hlt].
      * intros j y Hj [[_ Hy]|[-> _]]%lookup_snoc_Some.
        -- apply Qle_lt_trans with mp; eauto.
        -- lia.
Qed.

Lemma argmax_first_max (v : list Q) (k : nat) :
  Np.argmax v = Ret k -> first_max v k.
Proof.
  destruct v as [|x v]; [discriminate|]. cbn. intros [= <-].
  apply (argmax_from_first_max v [x] x 0); [reflexivity | |].
  - intros [|j] y [= <-]. apply Qle_refl.
  - intros j y Hj. lia.
Qed.

Lemma argmax_total (v : list Q) : v <> [] -> exists k, Np.argmax v = Ret k.
Proof. destruct v; [congruence|]. cbn. eauto. Qed.

Lemma first_max_lt (v : list Q) (k : nat) : first_max v k -> k < length v.
Proof. intros (x & Hx & _). eapply lookup_lt_Some, Hx. Qed.

Lemma argmin_from_first_min (v : list Q) :
  forall (pre : list Q) (mp : Q) (mi : nat),
    pre !! mi = Some mp ->
    (forall j y, pre !! j = Some y -> (mp <= y)%Q) ->
    (forall j y, j < mi -> pre !! j = Some y -> (mp < y)%Q) ->
    first_min (pre ++ v) (Np.argmin_from mp mi (length pre) v).
Proof.
  induction v as [|x v IH]; intros pre mp mi Hmi Hall Hbefore; cbn [Np.argmin_from].
  - rewrite app_nil_r. exists mp. auto.
  - replace (pre ++ x :: v) with ((pre ++ [x]) ++ v) by (rewrite <- app_assoc; reflexivity).
    replace (S (length pre)) with (length (pre ++ [x])) by (rewrite length_app; cbn; lia).
    destruct (Qle_bool mp x) eqn:Hle; cbn [negb].
    + apply Qle_bool_iff in Hle. apply IH.
      * apply lookup_app_l_Some, Hmi.
      * intros j y [[_ Hj]|[_ <-]]%lookup_snoc_Some; eauto.
      * intros j y Hlt [[_ Hj]|[-> _]]%lookup_snoc_Some; eauto.
        apply lookup_lt_Some in Hmi. lia.
    + assert (x < mp)%Q as Hlt.
      { apply Qnot_le_lt. intros Hc%Qle_bool_iff. congruence. }
      apply IH.
      * apply lookup_snoc_Some. right. split; reflexivity.
      * intros j y [[_ Hj]|[_ <-]]%lookup_snoc_Some; [|apply Qle_refl].
        apply Qle_trans with mp; [apply Qlt_le_weak, Hlt | eauto].
      * intros j y Hj [[_ Hy]|[-> _]]%lookup_snoc_Some.
        -- apply Qlt_le_trans with mp; eauto.
        -- lia.
Qed.

Lemma argmin_first_min (v : list Q) (k : nat) :
  Np.argmin v = Ret k -> first_min v k.
Proof.
  destruct v as [|x v]; [discriminate|]. cbn. intros [= <-].
  apply (argmin_from_first_min v [x] x 0); [reflexivity | |].
  - intros [|j] y [= <-]. apply Qle_refl.
  - intros j y Hj. lia.
Qed.

Lemma argmin_total (v : list Q) : v <> [] -> exists k, Np.argmin v = Ret k.
Proof. destruct v; [congruence|]. cbn. eauto. Qed.

Lemma first_min_lt (v : list Q) (k : nat) : first_min v k -> k < length v.
Proof. intros (x & Hx & _). eapply lookup_lt_Some, Hx. Qed.

(** ** The vectors the policies compute, entry by entry *)

Lemma means_pointwise (bs : BeliefState) :
  Np.vdiv (column0 bs) (row_sums bs) = empirical_means bs.
Proof.
  unfold Np.vdiv, column0, row_sums, empirical_means.
  induction bs as [|r bs IH]; [reflexivity|]. cbn. f_equal. exact IH.
Qed.

Lemma empirical_means_length (bs : BeliefState) :
  length (empirical_means bs) = length bs.
Proof. unfold empirical_means. apply length_fmap. Qed.

Lemma row_sums_length (bs : BeliefState) : length (row_sums bs) = length bs.
Proof. unfold row_sums. apply length_fmap. Qed.

Lemma ucb_tuned_pointwise (np_sqrt np_log : Q -> Q) (t : Q) (bs : BeliefState) :
  let totals := row_sums bs in
  let estimated_means := Np.vdiv (column0 bs) totals in
  let estimated_variances :=
    Np.vsub estimated_means ((fun m => m ^ 2)%Q <$> estimated_means) in
  Np.vadd estimated_means
    (np_sqrt <$>
       Np.vdiv
         ((fun x => x * np_log t)%Q <$>
            ((fun x => Qmin x 0.25) <$>
               Np.vadd estimated_variances
                 (np_sqrt <$> ((fun n => 2 * np_log t / n)%Q <$> totals))))
         totals)
  = (fun r => ucb_tuned_index_spec np_sqrt np_log t (r.1 + r.2) (r.1 / (r.1 + r.2)))%Q
      <$> bs.
Proof.
  cbv zeta. unfold Np.vadd, Np.vsub, Np.vdiv, column0, row_sums.
  induction bs as [|r bs IH]; [reflexivity|].
  cbn [fmap list_fmap zip_with]. f_equal. exact IH.
Qed.

Lemma ucb_bernoulli_pointwise (np_sqrt : Q -> Q) (bs : BeliefState) :
  let totals := row_sums bs in
  let estimated_means := Np.vdiv (column0 bs) totals in
  let estimated_variances :=
    Np.vsub estimated_means ((fun m => m ^ 2)%Q <$> estimated_means) in
  Np.vadd estimated_means
    ((fun x => 1.96 * x)%Q <$> (np_sqrt <$> Np.vdiv estimated_variances totals))
  = ucb_bernoulli_indices_spec np_sqrt bs.
Proof.
  cbv zeta. unfold Np.vadd, Np.vsub, Np.vdiv, column0, row_sums,
    ucb_bernoulli_indices_spec.
  induction bs as [|r bs IH]; [reflexivity|].
  cbn [fmap list_fmap zip_with]. f_equal. exact IH.
Qed.

Lemma sum_from_rows (bs : BeliefState) (acc acc' : Q) :
  (acc == acc')%Q ->
  (fold_left Qplus (flat_map (fun r => [r.1; r.2]) bs) acc
   == fold_left Qplus (row_sums bs) acc')%Q.
Proof.
  revert acc acc'. induction bs as [|[a b] bs IH]; intros acc acc' Hacc; cbn.
  - exact Hacc.
  - apply IH. rewrite Hacc. ring.
Qed.

Lemma sum_all_rows (bs : BeliefState) : (sum_all bs == Np.sum (row_sums bs))%Q.
Proof. apply sum_from_rows. reflexivity. Qed.

Lemma fmap_nonempty {A B : Type} (f : A -> B) (l : list A) : l <> [] -> f <$> l <> [].
Proof. destruct l; [congruence | discriminate]. Qed.


(** ** Updates of the belief state *)

Lemma add_one_inv (bs bs' : BeliefState) (c u : nat) :
  add_one bs c u = Ret bs' ->
  exists a b, bs !! c = Some (a, b)
    /\ ((u = 0 /\ bs' = <[c := ((a + 1)%Q, b)]> bs)
        \/ (u = 1 /\ bs' = <[c := (a, (b + 1)%Q)]> bs)).
Proof.
  unfold add_one. destruct (bs !! c) as [[a b]|] eqn:Hc; [|discriminate].
  destruct u as [|[|u]]; intros [= <-]; exists a, b; auto.
Qed.

Lemma belief_step_length (bs bs' : BeliefState) :
  belief_step bs bs' -> length bs' = length bs.
Proof.
  intros (c & u & (a & b & _ & [[_ ->]|[_ ->]])%add_one_inv); apply length_insert.
Qed.

(** A row only grows, and by nothing but whole pulls. *)
Lemma belief_step_row (bs bs' : BeliefState) (k : nat) (a' b' : Q) :
  belief_step bs bs' -> bs' !! k = Some (a', b') ->
  exists a b, bs !! k = Some (a, b) /\ (a <= a')%Q /\ (b <= b')%Q.
Proof.
  intros (c & u & (a & b & Hc & Hcase)%add_one_inv) Hk.
  destruct (decide (c = k)) as [->|Hne].
  - exists a, b. split; [exact Hc|].
    apply lookup_lt_Some in Hc as Hlt.
    destruct Hcase as [[_ ->]|[_ ->]];
      rewrite list_lookup_insert_eq in Hk by exact Hlt;
      injection Hk as <- <-; split; lra.
  - exists a', b'. split; [|split; apply Qle_refl].
    destruct Hcase as [[_ ->]|[_ ->]];
      rewrite list_lookup_insert_ne in Hk by exact Hne; exact Hk.
Qed.

Lemma belief_steps_row (bs bs' : BeliefState) :
  rtc belief_step bs bs' ->
  length bs' = length bs
  /\ forall k a' b', bs' !! k = Some (a', b') ->
       exists a b, bs !! k = Some (a, b) /\ (a <= a')%Q /\ (b <= b')%Q.
Proof.
  induction 1 as [bs|bs bs1 bs2 Hstep _ [IHlen IH]].
  - split; [reflexivity|]. intros k a' b' Hk. exists a', b'.
    split; [exact Hk | split; apply Qle_refl].
  - split; [rewrite IHlen; apply belief_step_length, Hstep|].
    intros k a' b' Hk. destruct (IH k a' b' Hk) as (a1 & b1 & Hk1 & Ha1 & Hb1).
    destruct (belief_step_row bs bs1 k a1 b1 Hstep Hk1) as (a & b & Hk0 & Ha & Hb).
    exists a, b. split; [exact Hk0 | split; lra].
Qed.

(** ** Naive *)

Lemma any_lt_true (v : list Q) (c : Q) :
  Np.any_lt v c = true <-> exists k n, v !! k = Some n /\ (n < c)%Q.
Proof.
  unfold Np.any_lt. rewrite existsb_exists. split.
  - intros (n & Hin & Hn%ltb_lt).
    apply list_elem_of_In, list_elem_of_lookup in Hin as [k Hk]. eauto.
  - intros (k & n & Hk & Hn). exists n. split; [|apply ltb_lt, Hn].
    apply list_elem_of_In, list_elem_of_lookup. eauto.
Qed.

Lemma any_lt_false (v : list Q) (c : Q) :
  Np.any_lt v c = false <-> forall k n, v !! k = Some n -> (c <= n)%Q.
Proof.
  rewrite <- not_true_iff_false, any_lt_true. split.
  - intros Hno k n Hk. apply Qnot_lt_le. intros Hlt. apply Hno. eauto.
  - intros Hall (k & n & Hk & Hlt). specialize (Hall k n Hk). lra.
Qed.

Lemma naive_exploits (number_to_explore : Q) (bs : BeliefState) :
  bs <> [] ->
  (forall k n, row_sums bs !! k = Some n -> (number_to_explore <= n)%Q) ->
  exists k, naive number_to_explore bs = Ret k /\ first_max (empirical_means bs) k.
Proof.
  intros Hne Hall. unfold naive. cbv zeta.
  rewrite (proj2 (any_lt_false _ _) Hall), means_pointwise.
  destruct (argmax_total (empirical_means bs)) as [k Hk].
  { apply fmap_nonempty, Hne. }
  exists k. rewrite Hk. split; [reflexivity | apply argmax_first_max, Hk].
Qed.

(** [naive] in terms of the row totals: while some row total is below the
    budget it returns the first arm of least row total; when every row
    total has reached the budget it returns the first arm of greatest
    empirical success rate, and so it does in every belief state the
    episode goes through from there on. *)
Lemma naive_on_row_totals (number_to_explore : Q) (bs : BeliefState) :
  bs <> [] ->
  ((exists k n, row_sums bs !! k = Some n /\ (n < number_to_explore)%Q) ->
     exists k, naive number_to_explore bs = Ret k /\ first_min (row_sums bs) k)
  /\ ((forall k n, row_sums bs !! k = Some n -> (number_to_explore <= n)%Q) ->
      (exists k, naive number_to_explore bs = Ret k
                 /\ first_max (empirical_means bs) k)
      /\ forall bs', rtc belief_step bs bs' ->
           Np.any_lt (row_sums bs') number_to_explore = false
           /\ exists k, naive number_to_explore bs' = Ret k
                        /\ first_max (empirical_means bs') k).
Proof.
  intros Hne. split.
  - intros Hsome. unfold naive. cbv zeta.
    rewrite (proj2 (any_lt_true _ _) Hsome).
    destruct (argmin_total (row_sums bs)) as [k Hk].
    { apply fmap_nonempty, Hne. }
    exists k. rewrite Hk. split; [reflexivity | apply argmin_first_min, Hk].
  - intros Hall. split; [apply naive_exploits; assumption|].
    intros bs' [Hlen Hrows]%belief_steps_row.
    assert (forall k n, row_sums bs' !! k = Some n -> (number_to_explore <= n)%Q)
      as Hall'.
    { intros k n Hk. unfold row_sums in Hk. rewrite list_lookup_fmap in Hk.
      destruct (bs' !! k) as [[a' b']|] eqn:Hk'; [|discriminate].
      injection Hk as <-. cbn [fst snd].
      destruct (Hrows k a' b' Hk') as (a & b & Hk0 & Ha & Hb).
      assert (number_to_explore <= a + b)%Q; [|lra].
      apply (Hall k). unfold row_sums. rewrite list_lookup_fmap, Hk0. reflexivity. }
    split; [apply any_lt_false, Hall'|].
    apply naive_exploits; [|exact Hall'].
    intros ->. destruct bs; [congruence | discriminate].
Qed.

(** ** Epsilon-greedy *)

Section EpsilonGreedy.

Context {G : Type} `{RandomSource G}.

Lemma np_randint_ret (low high : nat) (g : G) :
  low < high -> np_randint low high g = Ret (randint low high g).
Proof. intros Hlt. unfold np_randint. apply Nat.ltb_lt in Hlt. rewrite Hlt. reflexivity. Qed.

Lemma resample_other (fuel n best c : nat) (g : G) :
  c <> best -> resample fuel n best c g = Ret (c, g).
Proof.
  intros Hne. apply Nat.eqb_neq in Hne. destruct fuel; cbn; rewrite Hne; reflexivity.
Qed.

Lemma resample_best (fuel n best : nat) (g : G) :
  0 < n ->
  resample (S fuel) n best best g
  = resample fuel n best (randint 0 n g).1 (randint 0 n g).2.
Proof.
  intros Hn. cbn [resample]. rewrite Nat.eqb_refl, (np_randint_ret 0 n g Hn).
  destruct (randint 0 n g) as [c g']. reflexivity.
Qed.

(** The loop either needs more fuel or leaves with an index of the range
    that is not the best-mean arm: it never raises. *)
Lemma resample_cases (fuel n best c : nat) (g : G) :
  c < n ->
  resample fuel n best c g = OutOfFuel
  \/ exists k g', resample fuel n best c g = Ret (k, g') /\ k < n /\ k <> best.
Proof.
  revert c g. induction fuel as [|fuel IH]; intros c g Hc.
  - destruct (decide (c = best)) as [->|Hne].
    + left. cbn. rewrite Nat.eqb_refl. reflexivity.
    + right. exists c, g. rewrite resample_other by exact Hne. auto.
  - destruct (decide (c = best)) as [->|Hne].
    + rewrite resample_best by lia. apply IH.
      apply (randint_range 0 n g). lia.
    + right. exists c, g. rewrite resample_other by exact Hne. auto.
Qed.

(** More fuel does not change a result. *)
Lemma resample_fuel_mono (fuel fuel' n best c : nat) (g : G) (r : nat * G) :
  fuel <= fuel' ->
  resample fuel n best c g = Ret r -> resample fuel' n best c g = Ret r.
Proof.
  revert fuel' c g. induction fuel as [|fuel IH]; intros fuel' c g Hle Hr.
  - cbn in Hr. destruct (c =? best) eqn:Hc; [discriminate|].
    apply Nat.eqb_neq in Hc. rewrite resample_other by exact Hc. exact Hr.
  - destruct fuel' as [|fuel']; [lia|].
    cbn [resample] in Hr |- *. destruct (c =? best); [|exact Hr].
    destruct (np_randint 0 n g) as [[c' g']| |]; cbn in Hr |- *;
      [|discriminate|discriminate].
    apply IH; [lia | exact Hr].
Qed.

Lemma resample_deterministic (fuel1 fuel2 n best c : nat) (g : G) (r1 r2 : nat * G) :
  resample fuel1 n best c g = Ret r1 ->
  resample fuel2 n best c g = Ret r2 -> r1 = r2.
Proof.
  intros H1 H2.
  apply (resample_fuel_mono fuel1 (Nat.max fuel1 fuel2)) in H1; [|lia].
  apply (resample_fuel_mono fuel2 (Nat.max fuel1 fuel2)) in H2; [|lia].
  congruence.
Qed.

Lemma redraw_S (m n : nat) (g : G) :
  redraw (S m) n g = redraw m n (randint 0 n g).2.
Proof. reflexivity. Qed.

Lemma resample_starved (fuel n best : nat) (g : G) :
  0 < n ->
  (forall m, (redraw m n g).1 = best) ->
  resample fuel n best best g = OutOfFuel.
Proof.
  intros Hn. revert g. induction fuel as [|fuel IH]; intros g Hall.
  - cbn. rewrite Nat.eqb_refl. reflexivity.
  - rewrite resample_best by exact Hn.
    replace (randint 0 n g).1 with best by (symmetry; apply (Hall 0)).
    apply IH. intros m. apply (Hall (S m)).
Qed.

Lemma resample_fed (m n best : nat) (g : G) :
  0 < n ->
  (redraw m n g).1 <> best ->
  exists r, resample (S m) n best best g = Ret r.
Proof.
  intros Hn. revert g. induction m as [|m IH]; intros g Hm.
  - rewrite resample_best by exact Hn. cbn in Hm.
    rewrite resample_other by exact Hm. eauto.
  - rewrite resample_best by exact Hn.
    destruct (decide ((randint 0 n g).1 = best)) as [Heq|Hne].
    + rewrite Heq. apply IH. exact Hm.
    + rewrite resample_other by exact Hne. eauto.
Qed.

Lemma resample_returned (fuel n best : nat) (g : G) (r : nat * G) :
  0 < n ->
  resample fuel n best best g = Ret r ->
  exists m, (redraw m n g).1 <> best.
Proof.
  intros Hn. revert g. induction fuel as [|fuel IH]; intros g Hr.
  - cbn in Hr. rewrite Nat.eqb_refl in Hr. discriminate.
  - rewrite resample_best in Hr by exact Hn.
    destruct (decide ((randint 0 n g).1 = best)) as [Heq|Hne].
    + rewrite Heq in Hr. destruct (IH _ Hr) as [m Hm]. exists (S m). exact Hm.
    + exists 0. exact Hne.
Qed.

(** What [epsilon_greedy] does once [best_mean] and the first draw are
    known. *)
Lemma epsilon_greedy_unfold (fuel : nat) (epsilon : Q) (bs : BeliefState) (g : G)
    (best : nat) :
  Np.argmax (empirical_means bs) = Ret best ->
  epsilon_greedy fuel epsilon bs g
  = if Np.ltb (rand g).1 epsilon
    then resample fuel (length bs) best
           (randint 0 (length bs) (rand g).2).1 (randint 0 (length bs) (rand g).2).2
    else Ret (best, (rand g).2).
Proof.
  intros Hbest. unfold epsilon_greedy. cbv zeta.
  rewrite means_pointwise, Hbest. cbn.
  destruct (rand g) as [u g1]. cbn [fst snd].
  destruct (Np.ltb u epsilon); [|reflexivity].
  assert (0 < length bs) as Hlen.
  { apply argmax_first_max, first_max_lt in Hbest.
    rewrite empirical_means_length in Hbest. lia. }
  rewrite (np_randint_ret 0 (length bs) g1 Hlen).
  destruct (randint 0 (length bs) g1) as [c g2]. reflexivity.
Qed.

Lemma epsilon_greedy_best (bs : BeliefState) :
  bs <> [] ->
  exists best, Np.argmax (empirical_means bs) = Ret best
               /\ first_max (empirical_means bs) best
               /\ best < length bs.
Proof.
  intros Hne. destruct (argmax_total (empirical_means bs)) as [best Hbest].
  { apply fmap_nonempty, Hne. }
  exists best. pose proof (argmax_first_max _ _ Hbest) as Hmax.
  split; [exact Hbest|]. split; [exact Hmax|].
  apply first_max_lt in Hmax. rewrite empirical_means_length in Hmax. exact Hmax.
Qed.

(** With one arm an exploring call never comes back, whatever the fuel. *)
Lemma epsilon_greedy_single_arm (fuel : nat) (epsilon : Q) (bs : BeliefState) (g : G) :
  length bs = 1 ->
  Np.ltb (rand g).1 epsilon = true ->
  epsilon_greedy fuel epsilon bs g = OutOfFuel.
Proof.
  intros Hlen Hexplore.
  destruct (epsilon_greedy_best bs) as (best & Hbest & _ & Hlt).
  { intros ->. discriminate. }
  rewrite (epsilon_greedy_unfold fuel epsilon bs g best Hbest), Hexplore, Hlen.
  assert (forall g', (randint 0 1 g').1 = best) as Hdraw.
  { intros g'. pose proof (randint_range 0 1 g' ltac:(lia)). lia. }
  assert (forall m g', (redraw m 1 g').1 = best) as Hredraw.
  { induction m as [|m IH]; intros g'; [apply Hdraw | cbn; apply IH]. }
  rewrite Hdraw. apply resample_starved; [lia|].
  intros m. apply Hredraw.
Qed.

(** C6 (epsilon-greedy).  On a belief state with at least one arm: with
    epsilon = 0 the exploration test fails and the call returns the first
    arm of greatest empirical mean, for every fuel; and a call that took
    the exploration branch and returned, returned an arm of the range
    other than that best-mean arm. *)
Theorem epsilon_greedy_exploits_or_avoids_best (fuel : nat) (epsilon : Q)
    (bs : BeliefState) (g : G) :
  bs <> [] ->
  ((epsilon == 0)%Q ->
     Np.ltb (rand g).1 epsilon = false
     /\ exists best, epsilon_greedy fuel epsilon bs g = Ret (best, (rand g).2)
                     /\ first_max (empirical_means bs) best)
  /\ (Np.ltb (rand g).1 epsilon = true ->
      forall k g', epsilon_greedy fuel epsilon bs g = Ret (k, g') ->
        exists best, Np.argmax (empirical_means bs) = Ret best
                     /\ first_max (empirical_means bs) best
                     /\ k <> best /\ k < length bs).
Proof.
  intros Hne. destruct (epsilon_greedy_best bs Hne) as (best & Hbest & Hmax & Hlt).
  rewrite (epsilon_greedy_unfold fuel epsilon bs g best Hbest). split.
  - intros Heps.
    assert (Np.ltb (rand g).1 epsilon = false) as Hno.
    { apply ltb_ge. rewrite Heps. apply rand_range. }
    rewrite Hno. eauto.
  - intros Hexplore k g' Hret. rewrite Hexplore in Hret.
    exists best. split; [exact Hbest|]. split; [exact Hmax|].
    destruct (resample_cases fuel (length bs) best
                (randint 0 (length bs) (rand g).2).1
                (randint 0 (length bs) (rand g).2).2) as [Hout|(k1 & g1 & Hk1 & Hr & Hb)].
    + apply (randint_range 0 (length bs)). lia.
    + congruence.
    + rewrite Hk1 in Hret. injection Hret as <- <-. auto.
Qed.

(** C10 (the resampling loop).  When [epsilon_greedy] takes its
    exploration branch: with exactly one arm it never returns, whatever
    the fuel; with at least one arm it returns, for some fuel, exactly
    when some index it draws differs from the best-mean arm. *)
Theorem epsilon_greedy_returns_iff_other_index_drawn (epsilon : Q)
    (bs : BeliefState) (g : G) :
  Np.ltb (rand g).1 epsilon = true ->
  (length bs = 1 -> forall fuel, epsilon_greedy fuel epsilon bs g = OutOfFuel)
  /\ (bs <> [] ->
      exists best, Np.argmax (empirical_means bs) = Ret best
        /\ ((exists fuel r, epsilon_greedy fuel epsilon bs g = Ret r)
            <-> exists m, (redraw m (length bs) (rand g).2).1 <> best)).
Proof.
  intros Hexplore. split.
  - intros Hlen fuel. apply epsilon_greedy_single_arm; assumption.
  - intros Hne. destruct (epsilon_greedy_best bs Hne) as (best & Hbest & _ & Hlt).
    exists best. split; [exact Hbest|].
    assert (0 < length bs) as Hlen by lia.
    split.
    + intros (fuel & r & Hr).
      rewrite (epsilon_greedy_unfold fuel epsilon bs g best Hbest), Hexplore in Hr.
      destruct (decide ((randint 0 (length bs) (rand g).2).1 = best)) as [Heq|Hdiff].
      * rewrite Heq in Hr. apply resample_returned in Hr as [m Hm]; [|exact Hlen].
        exists (S m). exact Hm.
      * exists 0. exact Hdiff.
    + intros [m Hm].
      destruct (decide ((randint 0 (length bs) (rand g).2).1 = best)) as [Heq|Hdiff].
      * destruct m as [|m]; [contradiction|].
        destruct (resample_fed m (length bs) best _ Hlen Hm) as [r Hr].
        exists (S m), r.
        rewrite (epsilon_greedy_unfold (S m) epsilon bs g best Hbest), Hexplore, Heq.
        exact Hr.
      * exists 0. eexists.
        rewrite (epsilon_greedy_unfold 0 epsilon bs g best Hbest), Hexplore.
        apply resample_other, Hdiff.
Qed.

End EpsilonGreedy.

Lemma epsilon_greedy_exploits_or_avoids_best_witness :
  (exists best, epsilon_greedy 0 0 [(1, 1); (3, 1); (2, 5)]%Q [5; 1; 1; 2]
                = Ret (best, [1; 1; 2])
                /\ first_max (empirical_means [(1, 1); (3, 1); (2, 5)]%Q) best)
  /\ (exists best,
        epsilon_greedy 4 epsilon_default [(1, 1); (3, 1); (2, 5)]%Q [5; 1; 1; 2]
        = Ret (2, [])
        /\ first_max (empirical_means [(1, 1); (3, 1); (2, 5)]%Q) best
        /\ 2 <> best).
Proof.
  split.
  - destruct (epsilon_greedy_exploits_or_avoids_best 0 0
                [(1, 1); (3, 1); (2, 5)]%Q [5; 1; 1; 2] ltac:(discriminate))
      as [Hzero _].
    destruct (Hzero ltac:(reflexivity)) as (_ & best & Hret & Hmax).
    exists best. split; [exact Hret | exact Hmax].
  - destruct (epsilon_greedy_exploits_or_avoids_best 4 epsilon_default
                [(1, 1); (3, 1); (2, 5)]%Q [5; 1; 1; 2] ltac:(discriminate))
      as [_ Hexplore].
    destruct (Hexplore ltac:(reflexivity) 2 [] ltac:(reflexivity))
      as (best & _ & Hmax & Hne & _).
    exists best. split; [reflexivity|]. split; [exact Hmax | exact Hne].
Defined.

Lemma epsilon_greedy_returns_iff_other_index_drawn_witness :
  (forall fuel, epsilon_greedy fuel epsilon_default [(1, 1)]%Q [5; 7; 9] = OutOfFuel)
  /\ (exists fuel r,
        epsilon_greedy fuel epsilon_default [(1, 1); (3, 1); (2, 5)]%Q [5; 1; 1; 2]
        = Ret r).
Proof.
  split.
  - destruct (epsilon_greedy_returns_iff_other_index_drawn epsilon_default
                [(1, 1)]%Q [5; 7; 9]) as [Hone _]; [reflexivity|].
    apply Hone. reflexivity.
  - destruct (epsilon_greedy_returns_iff_other_index_drawn epsilon_default
                [(1, 1); (3, 1); (2, 5)]%Q [5; 1; 1; 2]) as [_ Hmany]; [reflexivity|].
    destruct (Hmany ltac:(discriminate)) as (best & Hbest & Hiff).
    apply Hiff. exists 2. vm_compute in Hbest. injection Hbest as <-.
    vm_compute. discriminate.
Defined.

(** ** The range of the chosen arm *)

Section ArmRange.

Context {G : Type} `{RandomSource G}.
Variables np_sqrt np_log : Q -> Q.

Lemma argmax_below (v : list Q) (n : nat) :
  length v = n -> 0 < n -> exists k, Np.argmax v = Ret k /\ k < n.
Proof.
  intros Hlen Hn. destruct (argmax_total v) as [k Hk].
  { intros ->. cbn in Hlen. lia. }
  exists k. split; [exact Hk|].
  apply argmax_first_max, first_max_lt in Hk. lia.
Qed.

Lemma as_choice_below (f : BeliefState -> outcome nat) (bs : BeliefState) (g : G) :
  (exists k, f bs = Ret k /\ k < length bs) ->
  returns_arm_below (length bs) (as_choice f bs g).
Proof.
  intros (k & Hk & Hlt). exists k, g. unfold as_choice. rewrite Hk. auto.
Qed.

Lemma random_below (bs : BeliefState) (g : G) :
  bs <> [] -> returns_arm_below (length bs) (random bs g).
Proof.
  intros Hne. assert (0 < length bs) as Hlen by (destruct bs; [congruence | cbn; lia]).
  unfold random. rewrite (np_randint_ret 0 (length bs) g Hlen).
  pose proof (randint_range 0 (length bs) g Hlen) as Hr.
  destruct (randint 0 (length bs) g) as [k g']. exists k, g'. cbn in Hr. split; [reflexivity | lia].
Qed.

Lemma naive_below (number_to_explore : Q) (bs : BeliefState) :
  bs <> [] -> exists k, naive number_to_explore bs = Ret k /\ k < length bs.
Proof.
  intros Hne. assert (0 < length bs) as Hlen by (destruct bs; [congruence | cbn; lia]).
  unfold naive. cbv zeta. destruct (Np.any_lt (row_sums bs) number_to_explore).
  - destruct (argmin_total (row_sums bs)) as [k Hk]; [apply fmap_nonempty, Hne|].
    exists k. rewrite Hk. split; [reflexivity|].
    apply argmin_first_min, first_min_lt in Hk. rewrite row_sums_length in Hk. exact Hk.
  - rewrite means_pointwise.
    destruct (argmax_below (empirical_means bs) (length bs)) as (k & Hk & Hlt);
      [apply empirical_means_length | exact Hlen |].
    exists k. rewrite Hk. auto.
Qed.

Lemma UCB_below (bs : BeliefState) :
  bs <> [] -> exists k, UCB np_sqrt np_log bs = Ret k /\ k < length bs.
Proof.
  intros Hne. assert (0 < length bs) as Hlen by (destruct bs; [congruence | cbn; lia]).
  unfold UCB. cbv zeta. rewrite (ucb_tuned_pointwise np_sqrt np_log (sum_all bs) bs).
  apply argmax_below; [apply length_fmap | exact Hlen].
Qed.

Lemma UCB_bernoulli_below (bs : BeliefState) :
  bs <> [] -> exists k, UCB_bernoulli np_sqrt bs = Ret k /\ k < length bs.
Proof.
  intros Hne. assert (0 < length bs) as Hlen by (destruct bs; [congruence | cbn; lia]).
  unfold UCB_bernoulli. cbv zeta. rewrite (ucb_bernoulli_pointwise np_sqrt bs).
  apply argmax_below; [apply length_fmap | exact Hlen].
Qed.

Lemma thompson_sampling_below (bs : BeliefState) (g : G) :
  bs <> [] -> returns_arm_below (length bs) (thompson_sampling bs g).
Proof.
  intros Hne. assert (0 < length bs) as Hlen by (destruct bs; [congruence | cbn; lia]).
  unfold thompson_sampling.
  pose proof (rbeta_length (column0 bs) (column1 bs) g) as Hv.
  unfold column0, column1 in Hv |- *. rewrite !length_fmap in Hv. specialize (Hv eq_refl).
  destruct (rbeta (fst <$> bs) (snd <$> bs) g) as [samples g']. cbn [fst] in Hv.
  destruct (argmax_below samples (length bs) Hv Hlen) as (k & Hk & Hlt).
  exists k, g'. rewrite Hk. auto.
Qed.

Lemma epsilon_greedy_below (fuel : nat) (epsilon : Q) (bs : BeliefState) (g : G) :
  bs <> [] ->
  epsilon_greedy fuel epsilon bs g = OutOfFuel
  \/ returns_arm_below (length bs) (epsilon_greedy fuel epsilon bs g).
Proof.
  intros Hne. destruct (epsilon_greedy_best bs Hne) as (best & Hbest & _ & Hlt).
  rewrite (epsilon_greedy_unfold fuel epsilon bs g best Hbest).
  destruct (Np.ltb (rand g).1 epsilon).
  - destruct (resample_cases fuel (length bs) best
                (randint 0 (length bs) (rand g).2).1
                (randint 0 (length bs) (rand g).2).2) as [Hout|(k & g' & Hk & Hr & _)].
    + apply (randint_range 0 (length bs)). lia.
    + left. exact Hout.
    + right. exists k, g'. auto.
  - right. exists best, (rand g).2. auto.
Qed.

Lemma epsilon_greedy_returns (epsilon : Q) (bs : BeliefState) (g : G) (best : nat) :
  Np.argmax (empirical_means bs) = Ret best ->
  (Np.ltb (rand g).1 epsilon = false
   \/ exists m, (redraw m (length bs) (rand g).2).1 <> best) ->
  exists fuel, returns_arm_below (length bs) (epsilon_greedy fuel epsilon bs g).
Proof.
  intros Hbest Hcase.
  assert (bs <> []) as Hne.
  { intros ->. discriminate. }
  assert (exists fuel r, epsilon_greedy fuel epsilon bs g = Ret r) as (fuel & r & Hr).
  { destruct (Np.ltb (rand g).1 epsilon) eqn:Hexplore.
    - destruct Hcase as [|[m Hm]]; [discriminate|].
      assert (0 < length bs) as Hlen by (destruct bs; [congruence | cbn; lia]).
      destruct (decide ((randint 0 (length bs) (rand g).2).1 = best)) as [Heq|Hdiff].
      + destruct m as [|m]; [contradiction|].
        destruct (resample_fed m (length bs) best _ Hlen Hm) as [r Hr].
        exists (S m), r.
        rewrite (epsilon_greedy_unfold (S m) epsilon bs g best Hbest), Hexplore, Heq.
        exact Hr.
      + exists 0. eexists.
        rewrite (epsilon_greedy_unfold 0 epsilon bs g best Hbest), Hexplore.
        apply resample_other, Hdiff.
    - exists 0. eexists.
      rewrite (epsilon_greedy_unfold 0 epsilon bs g best Hbest), Hexplore.
      reflexivity. }
  exists fuel. destruct (epsilon_greedy_below fuel epsilon bs g Hne) as [Hout|Hret];
    [congruence | exact Hret].
Qed.

(** C8, as amended.  On a belief state with K >= 1 arms and for every
    state of the random source: [random], [naive], [UCB], [UCB_bernoulli]
    and [thompson_sampling] return an arm of [0, K); [epsilon_greedy]
    never raises and never returns an arm outside [0, K), and it does
    return one, given fuel enough, when it does not explore or when some
    index it draws differs from the best-mean arm; and an arm any of the
    six returns indexes a row of K rewards in bounds. *)
Theorem policies_choose_arms_in_range (fuel : nat) (p : policy_name)
    (bs : BeliefState) (g : G) :
  bs <> [] ->
  (p <> EpsilonGreedy ->
     returns_arm_below (length bs) (policy_of np_sqrt np_log fuel p bs g))
  /\ (policy_of np_sqrt np_log fuel p bs g = OutOfFuel
      \/ returns_arm_below (length bs) (policy_of np_sqrt np_log fuel p bs g))
  /\ (forall best,
        Np.argmax (empirical_means bs) = Ret best ->
        (Np.ltb (rand g).1 epsilon_default = false
         \/ exists m, (redraw m (length bs) (rand g).2).1 <> best) ->
        exists fuel',
          returns_arm_below (length bs)
            (policy_of np_sqrt np_log fuel' EpsilonGreedy bs g))
  /\ (forall k g' (rewards_i : list bool),
        policy_of np_sqrt np_log fuel p bs g = Ret (k, g') ->
        length rewards_i = length bs ->
        exists reward, getitem rewards_i k = Ret reward).
Proof.
  intros Hne.
  assert (p <> EpsilonGreedy ->
          returns_arm_below (length bs) (policy_of np_sqrt np_log fuel p bs g)) as Hfive.
  { destruct p; intros Hp; cbn [policy_of]; try congruence.
    - apply random_below, Hne.
    - apply as_choice_below, naive_below, Hne.
    - apply as_choice_below, UCB_below, Hne.
    - apply as_choice_below, UCB_bernoulli_below, Hne.
    - apply thompson_sampling_below, Hne. }
  assert (policy_of np_sqrt np_log fuel p bs g = OutOfFuel
          \/ returns_arm_below (length bs) (policy_of np_sqrt np_log fuel p bs g)) as Hsix.
  { destruct (decide (p = EpsilonGreedy)) as [->|Hp].
    - apply epsilon_greedy_below, Hne.
    - right. apply Hfive, Hp. }
  split; [exact Hfive|]. split; [exact Hsix|]. split.
  { intros best Hbest Hcase. cbn [policy_of].
    apply (epsilon_greedy_returns epsilon_default bs g best Hbest Hcase). }
  intros k g' rewards_i Hret Hlen.
  destruct Hsix as [Hout|(k1 & g1 & Hk1 & Hlt)]; [congruence|].
  rewrite Hk1 in Hret. injection Hret as -> ->.
  unfold getitem. destruct (lookup_lt_is_Some_2 rewards_i k) as [reward Hreward]; [lia|].
  rewrite Hreward. eauto.
Qed.

End ArmRange.

Lemma policies_choose_arms_in_range_witness :
  [(1, 1); (3, 1); (2, 5)]%Q <> []
  /\ returns_arm_below 3
       (policy_of Tape.sqrt_approx Tape.log_approx 0 UCBTuned
          [(1, 1); (3, 1); (2, 5)]%Q ([7; 8] : Tape.tape)).
Proof.
  split; [discriminate|].
  destruct (policies_choose_arms_in_range Tape.sqrt_approx Tape.log_approx 0 UCBTuned
              [(1, 1); (3, 1); (2, 5)]%Q ([7; 8] : Tape.tape)) as [Hfive _];
    [discriminate|].
  apply Hfive. discriminate.
Defined.

(** C8 as stated fails: with one arm and a first draw below epsilon,
    [epsilon_greedy] returns no arm, whatever the fuel. *)
Lemma epsilon_greedy_one_arm_returns_nothing :
  ~ exists fuel,
      returns_arm_below 1
        (policy_of Tape.sqrt_approx Tape.log_approx fuel EpsilonGreedy
           (prior_beliefs 1) ([5] : Tape.tape)).
Proof.
  intros (fuel & k & g' & Hret & _). cbn [policy_of] in Hret.
  rewrite (epsilon_greedy_single_arm fuel epsilon_default (prior_beliefs 1) [5]) in Hret;
    [discriminate | reflexivity | reflexivity].
Qed.

(** ** Loops and binds *)

Lemma bind_ret_inv {A B : Type} (m : outcome A) (k : A -> outcome B) (b : B) :
  m ≫= k = Ret b -> exists a, m = Ret a /\ k a = Ret b.
Proof. destruct m as [a| |]; cbn; [eauto | discriminate | discriminate]. Qed.

Lemma getitem_ret_inv {A : Type} (l : list A) (i : nat) (x : A) :
  getitem l i = Ret x -> l !! i = Some x.
Proof. unfold getitem. destruct (l !! i); [congruence | discriminate]. Qed.

Lemma for_each_app {S I : Type} (body : I -> S -> outcome S) (l1 l2 : list I) (s : S) :
  for_each body (l1 ++ l2) s = for_each body l1 s ≫= for_each body l2.
Proof.
  revert s. induction l1 as [|i l1 IH]; intros s; [reflexivity|].
  cbn. destruct (body i s) as [s'| |]; cbn; [apply IH | reflexivity | reflexivity].
Qed.

(** A property that holds before a counted loop and that every iteration
    carries from [i] to [S i] holds when the loop returns. *)
Lemma for_each_seq_invariant {S : Type} (body : nat -> S -> outcome S)
    (P : nat -> S -> Prop) (n : nat) :
  forall (a : nat) (s s' : S),
    P a s ->
    (forall i t t', a <= i < a + n -> P i t -> body i t = Ret t' -> P (Datatypes.S i) t') ->
    for_each body (seq a n) s = Ret s' ->
    P (a + n) s'.
Proof.
  induction n as [|n IH]; intros a s s' Hinit Hstep Hrun.
  - cbn in Hrun. injection Hrun as <-. rewrite Nat.add_0_r. exact Hinit.
  - cbn [seq for_each] in Hrun. apply bind_ret_inv in Hrun as (s1 & Hbody & Hrest).
    replace (a + Datatypes.S n) with (Datatypes.S a + n) by lia.
    apply (IH (Datatypes.S a) s1 s'); [|intros i t t' Hi; apply Hstep; lia|exact Hrest].
    apply (Hstep a s s1); [lia | exact Hinit | exact Hbody].
Qed.

Lemma for_each_seq_S {S : Type} (body : nat -> S -> outcome S) (n : nat) (s : S) :
  for_each body (seq 0 (Datatypes.S n)) s = for_each body (seq 0 n) s ≫= body n.
Proof.
  rewrite seq_S, for_each_app. cbn.
  destruct (for_each body (seq 0 n) s) as [s'| |]; cbn; [|reflexivity|reflexivity].
  destruct (body n s'); reflexivity.
Qed.

(** ** One round *)

Section Episode.

Context {G : Type} `{RandomSource G}.

(** What a round that returned has done. *)
Lemma round_inv (true_rewards : list (list bool)) (CTRs : list (list Q))
    (bandit_distri : list Q) (best : nat) (choice_func : Policy) (i : nat)
    (st st' : loop_state (G := G)) :
  round true_rewards CTRs bandit_distri best choice_func i st = Ret st' ->
  exists (c : nat) (g' : G) (rewards_i : list bool) (reward_choice reward_best : bool)
         (best_p : Q) (CTRs_i : list Q) (p : Q) (params' : BeliefState),
    choice_func (st_params st) (st_rng st) = Ret (c, g')
    /\ true_rewards !! i = Some rewards_i
    /\ rewards_i !! c = Some reward_choice
    /\ rewards_i !! best = Some reward_best
    /\ bandit_distri !! best = Some best_p
    /\ CTRs !! i = Some CTRs_i
    /\ CTRs_i !! c = Some p
    /\ add_one (st_params st) c (if reward_choice then 0 else 1) = Ret params'
    /\ st' = {| st_params := params';
                st_regret := <[i := (best_p - p)%Q]> (st_regret st);
                st_god_regret :=
                  <[i := realized_regret_spec reward_best reward_choice]>
                    (st_god_regret st);
                st_choices := st_choices st ++ [c];
                st_rng := g' |}.
Proof.
  unfold round. intros Hr.
  apply bind_ret_inv in Hr as ([c g'] & Hchoice & Hr).
  apply bind_ret_inv in Hr as (rewards_i & Hrow%getitem_ret_inv & Hr).
  apply bind_ret_inv in Hr as (reward_choice & Hrc%getitem_ret_inv & Hr).
  apply bind_ret_inv in Hr as (params' & Hadd & Hr).
  apply bind_ret_inv in Hr as (best_p & Hbp%getitem_ret_inv & Hr).
  apply bind_ret_inv in Hr as (CTRs_i & Hci%getitem_ret_inv & Hr).
  apply bind_ret_inv in Hr as (p & Hp%getitem_ret_inv & Hr).
  apply bind_ret_inv in Hr as (reward_best & Hrb%getitem_ret_inv & Hr).
  exists c, g', rewards_i, reward_choice, reward_best, best_p, CTRs_i, p, params'.
  repeat (split; [assumption|]).
  injection Hr as <-. destruct reward_best, reward_choice; reflexivity.
Qed.

Lemma run_rounds_inv (n K : nat) (true_rewards : list (list bool))
    (CTRs : list (list Q)) (choice_func : Policy) (g : G) (st : loop_state) :
  run_rounds n K true_rewards CTRs choice_func g = Ret st ->
  exists bandit_distri best,
    Np.max_axis0 CTRs = Ret bandit_distri
    /\ Np.argmax bandit_distri = Ret best
    /\ for_each (round true_rewards CTRs bandit_distri best choice_func) (seq 0 n)
         (initial_state (length true_rewards) K g) = Ret st.
Proof.
  unfold run_rounds. intros Hr.
  apply bind_ret_inv in Hr as (bandit_distri & Hd & Hr).
  apply bind_ret_inv in Hr as (best & Hb & Hr). eauto.
Qed.

(** The state after [S n] rounds is one round after the state after [n]. *)
Lemma run_rounds_S (n K : nat) (true_rewards : list (list bool))
    (CTRs : list (list Q)) (choice_func : Policy) (g : G) (st' : loop_state) :
  run_rounds (S n) K true_rewards CTRs choice_func g = Ret st' ->
  exists bandit_distri best st,
    Np.max_axis0 CTRs = Ret bandit_distri
    /\ Np.argmax bandit_distri = Ret best
    /\ run_rounds n K true_rewards CTRs choice_func g = Ret st
    /\ round true_rewards CTRs bandit_distri best choice_func n st = Ret st'.
Proof.
  intros (bandit_distri & best & Hd & Hb & Hloop)%run_rounds_inv.
  rewrite for_each_seq_S in Hloop. apply bind_ret_inv in Hloop as (st & Hst & Hround).
  exists bandit_distri, best, st. repeat (split; [assumption|]).
  split; [|exact Hround]. unfold run_rounds. rewrite Hd. cbn. rewrite Hb. cbn. exact Hst.
Qed.

End Episode.

(** ** The belief state along an episode *)

Lemma pulls_snoc (choices : list nat) (c k : nat) :
  pulls (choices ++ [c]) k = pulls choices k + (if decide (c = k) then 1 else 0).
Proof.
  unfold pulls. rewrite count_occ_app. cbn.
  destruct (Nat.eq_dec c k), (decide (c = k)); congruence.
Qed.

Lemma inject_nat_S (n : nat) :
  (inject_Z (Z.of_nat (n + 1)) == inject_Z (Z.of_nat n) + 1)%Q.
Proof. rewrite Nat2Z.inj_add, inject_Z_plus. reflexivity. Qed.

Lemma prior_beliefs_row (K k : nat) (a b : Q) :
  prior_beliefs K !! k = Some (a, b) ->
  k < K /\ a = (0 + prior_a)%Q /\ b = (0 + prior_b)%Q.
Proof.
  unfold prior_beliefs. intros [Heq Hlt]%lookup_replicate.
  injection Heq as -> ->. auto.
Qed.

(** Every entry a reachable belief state holds is at least the prior. *)
Lemma reachable_beliefs_row (K : nat) (bs : BeliefState) (k : nat) (a b : Q) :
  reachable_beliefs K bs -> bs !! k = Some (a, b) ->
  k < K /\ (prior_a <= a)%Q /\ (prior_b <= b)%Q.
Proof.
  intros [_ Hrows]%belief_steps_row Hk.
  destruct (Hrows k a b Hk) as (a0 & b0 & (Hlt & -> & ->)%prior_beliefs_row & Ha & Hb).
  split; [exact Hlt|]. unfold prior_a, prior_b in *. split; lra.
Qed.

Lemma reachable_beliefs_length (K : nat) (bs : BeliefState) :
  reachable_beliefs K bs -> length bs = K.
Proof.
  intros [Hlen _]%belief_steps_row. rewrite Hlen. apply length_replicate.
Qed.

Section BeliefInvariant.

Context {G : Type} `{RandomSource G}.

Lemma run_rounds_beliefs (n K : nat) (true_rewards : list (list bool))
    (CTRs : list (list Q)) (choice_func : Policy) (g : G) (st : loop_state) :
  run_rounds n K true_rewards CTRs choice_func g = Ret st ->
  length (st_choices st) = n
  /\ reachable_beliefs K (st_params st)
  /\ forall k a b, st_params st !! k = Some (a, b) ->
       (a + b == inject_Z (Z.of_nat (pulls (st_choices st) k)) + 2)%Q.
Proof.
  intros (bandit_distri & best & _ & _ & Hloop)%run_rounds_inv.
  apply (for_each_seq_invariant _
           (fun i st =>
              length (st_choices st) = i
              /\ reachable_beliefs K (st_params st)
              /\ forall k a b, st_params st !! k = Some (a, b) ->
                   (a + b == inject_Z (Z.of_nat (pulls (st_choices st) k)) + 2)%Q)
           n 0 _ st) in Hloop; [exact Hloop | |].
  - cbn. split; [reflexivity|]. split; [apply rtc_refl|].
    intros k a b (_ & -> & ->)%prior_beliefs_row. reflexivity.
  - clear Hloop st. intros i st st' _ (Hlen & Hreach & Hsum) Hround.
    apply round_inv in Hround
      as (c & g' & rewards_i & rc & rb & best_p & CTRs_i & p & params'
          & _ & _ & _ & _ & _ & _ & _ & Hadd & ->).
    cbn [st_choices st_params]. split; [rewrite length_app, Hlen; cbn; lia|].
    split; [eapply rtc_r; [exact Hreach | exists c; eauto]|].
    intros k a' b' Hk. rewrite pulls_snoc.
    apply add_one_inv in Hadd as (a & b & Hc & Hcase).
    apply lookup_lt_Some in Hc as Hlt. specialize (Hsum c a b Hc) as Hsumc.
    destruct (decide (c = k)) as [<-|Hne].
    + rewrite inject_nat_S.
      set (x := inject_Z (Z.of_nat (pulls (st_choices st) c))) in *.
      destruct Hcase as [[_ ->]|[_ ->]];
        rewrite list_lookup_insert_eq in Hk by exact Hlt;
        injection Hk as <- <-; lra.
    + rewrite Nat.add_0_r. apply Hsum.
      destruct Hcase as [[_ ->]|[_ ->]];
        rewrite list_lookup_insert_ne in Hk by exact Hne; exact Hk.
Qed.

(** C4 (belief state).  After any number [n] of rounds of an episode, with
    any policy: every arm k < K has a row, both entries of the row are at
    least the prior 1, and the row sums to the number of pulls of k so far
    plus 2; and round [n] replaces exactly one row, that of the arm it
    chose, adding exactly 1 to either its success or its failure entry. *)
Theorem belief_rows_count_pulls (n K : nat) (true_rewards : list (list bool))
    (CTRs : list (list Q)) (choice_func : Policy) (g : G) (st : loop_state) :
  run_rounds n K true_rewards CTRs choice_func g = Ret st ->
  length (st_choices st) = n
  /\ length (st_params st) = K
  /\ (forall k, k < K ->
        exists a b, st_params st !! k = Some (a, b)
          /\ (1 <= a)%Q /\ (1 <= b)%Q
          /\ (a + b == inject_Z (Z.of_nat (pulls (st_choices st) k)) + 2)%Q)
  /\ (forall st', run_rounds (S n) K true_rewards CTRs choice_func g = Ret st' ->
        exists c a b,
          st_choices st' = st_choices st ++ [c]
          /\ st_params st !! c = Some (a, b)
          /\ (st_params st' = <[c := ((a + 1)%Q, b)]> (st_params st)
              \/ st_params st' = <[c := (a, (b + 1)%Q)]> (st_params st))
          /\ forall k, k <> c -> st_params st' !! k = st_params st !! k).
Proof.
  intros Hrun. destruct (run_rounds_beliefs _ _ _ _ _ _ _ Hrun) as (Hlen & Hreach & Hsum).
  pose proof (reachable_beliefs_length _ _ Hreach) as HK.
  split; [exact Hlen|]. split; [exact HK|]. split.
  - intros k Hk. destruct (lookup_lt_is_Some_2 (st_params st) k) as [[a b] Hrow]; [lia|].
    exists a, b. split; [exact Hrow|].
    destruct (reachable_beliefs_row _ _ _ _ _ Hreach Hrow) as (_ & Ha & Hb).
    split; [exact Ha|]. split; [exact Hb|]. apply Hsum, Hrow.
  - intros st' (bandit_distri & best & st0 & _ & _ & Hrun0 & Hround)%run_rounds_S.
    rewrite Hrun in Hrun0. injection Hrun0 as <-.
    apply round_inv in Hround
      as (c & g' & rewards_i & rc & rb & best_p & CTRs_i & p & params'
          & _ & _ & _ & _ & _ & _ & _ & Hadd & ->).
    apply add_one_inv in Hadd as (a & b & Hc & Hcase).
    exists c, a, b. cbn [st_choices st_params].
    split; [reflexivity|]. split; [exact Hc|].
    split; [destruct Hcase as [[_ ->]|[_ ->]]; auto|].
    intros k Hne. destruct Hcase as [[_ ->]|[_ ->]];
      apply list_lookup_insert_ne; congruence.
Qed.

(** C7 (divisors).  In a belief state that started from the (1, 1) prior
    and was only ever incremented, every row total -- the divisor of every
    division [naive], [epsilon_greedy], [UCB] and [UCB_bernoulli] make --
    is positive (it is at least 2), so no division is by zero; and the
    belief state after any number of rounds of an episode, with any
    policy, is such a state. *)
Theorem divisors_positive (K : nat) (bs : BeliefState) (n : nat)
    (true_rewards : list (list bool)) (CTRs : list (list Q))
    (choice_func : Policy) (g : G) (st : loop_state) :
  (reachable_beliefs K bs ->
     length (row_sums bs) = K
     /\ forall k n_k, row_sums bs !! k = Some n_k ->
          (0 < n_k)%Q /\ (2 <= n_k)%Q /\ Qeq_bool n_k 0 = false)
  /\ (run_rounds n K true_rewards CTRs choice_func g = Ret st ->
      reachable_beliefs K (st_params st)).
Proof.
  split; [|intros Hrun; apply (run_rounds_beliefs _ _ _ _ _ _ _ Hrun)].
  intros Hreach. split; [rewrite row_sums_length; apply reachable_beliefs_length, Hreach|].
  intros k n_k Hk. unfold row_sums in Hk. rewrite list_lookup_fmap in Hk.
  destruct (bs !! k) as [[a b]|] eqn:Hrow; [|discriminate]. injection Hk as <-.
  destruct (reachable_beliefs_row _ _ _ _ _ Hreach Hrow) as (_ & Ha & Hb).
  unfold prior_a, prior_b in *. cbn [fst snd].
  split; [lra|]. split; [lra|].
  apply not_true_iff_false. intros Heq%Qeq_bool_iff. lra.
Qed.

End BeliefInvariant.

Lemma belief_rows_count_pulls_witness :
  exists st,
    run_rounds 2 2 [[true; false]; [false; true]; [true; true]]
      (Np.tile [0.3; 0.6]%Q 3) random ([1; 0; 1] : Tape.tape) = Ret st
    /\ length (st_choices st) = 2
    /\ length (st_params st) = 2.
Proof.
  destruct (run_rounds 2 2 [[true; false]; [false; true]; [true; true]]
              (Np.tile [0.3; 0.6]%Q 3) random ([1; 0; 1] : Tape.tape))
    as [st| |] eqn:Hrun; [|vm_compute in Hrun; discriminate..].
  exists st. split; [reflexivity|].
  destruct (belief_rows_count_pulls _ _ _ _ _ _ _ Hrun) as (Hchoices & Hparams & _).
  split; [exact Hchoices | exact Hparams].
Defined.

Lemma divisors_positive_witness :
  reachable_beliefs 2 [(1 + 1, 1); (1, 1)]%Q /\ (0 < 1 + 1 + 1)%Q.
Proof.
  assert (reachable_beliefs 2 [(1 + 1, 1); (1, 1)]%Q) as Hreach.
  { apply rtc_once. exists 0, 0. reflexivity. }
  split; [exact Hreach|].
  destruct (divisors_positive 2 [(1 + 1, 1); (1, 1)]%Q 0 [] [] random
              ([] : Tape.tape) (initial_state 0 2 [])) as [Hpos _].
  destruct (Hpos Hreach) as [_ Hrows]. apply (Hrows 0). reflexivity.
Defined.

(** ** Naive and the pulls of an episode *)

Lemma inject_nat_le (a b : nat) :
  (inject_Z (Z.of_nat a) <= inject_Z (Z.of_nat b))%Q <-> a <= b.
Proof. rewrite <- Zle_Qle. lia. Qed.

Lemma inject_nat_lt (a b : nat) :
  (inject_Z (Z.of_nat a) < inject_Z (Z.of_nat b))%Q <-> a < b.
Proof. rewrite <- Zlt_Qlt. lia. Qed.

(** The row totals of an episode state, in pulls. *)
Lemma episode_row_totals {G : Type} `{RandomSource G} (n K : nat)
    (true_rewards : list (list bool)) (CTRs : list (list Q))
    (choice_func : Policy) (g : G) (st : loop_state) :
  run_rounds n K true_rewards CTRs choice_func g = Ret st ->
  length (row_sums (st_params st)) = K
  /\ forall k, k < K ->
       exists n_k, row_sums (st_params st) !! k = Some n_k
         /\ (n_k == inject_Z (Z.of_nat (pulls (st_choices st) k)) + 2)%Q.
Proof.
  intros Hrun. destruct (run_rounds_beliefs _ _ _ _ _ _ _ Hrun) as (_ & Hreach & Hsum).
  pose proof (reachable_beliefs_length _ _ Hreach) as HK.
  split; [rewrite row_sums_length; exact HK|].
  intros k Hk. destruct (lookup_lt_is_Some_2 (st_params st) k) as [[a b] Hrow]; [lia|].
  exists (a + b)%Q. split; [|apply Hsum, Hrow].
  unfold row_sums. rewrite list_lookup_fmap, Hrow. reflexivity.
Qed.

(** C3, as amended.  On a belief state with at least one arm: while some
    arm's row total is below the exploration budget, [naive] returns the
    first arm of least row total; when every row total has reached the
    budget it returns the first arm of greatest empirical success rate,
    and so it does in every belief state the episode goes through from
    there on.  In the belief state of an episode the row total of an arm
    is its pulls plus the prior mass 2: the arm of least row total is the
    least-pulled arm (the first of them), and a row total is below the
    budget exactly when the arm has fewer than budget - 2 pulls (98 for
    the default budget [number_to_explore_default] = 100). *)
Theorem naive_explores_then_commits (number_to_explore : Q) (bs : BeliefState) :
  bs <> [] ->
  ((exists k n, row_sums bs !! k = Some n /\ (n < number_to_explore)%Q) ->
     exists k, naive number_to_explore bs = Ret k /\ first_min (row_sums bs) k)
  /\ ((forall k n, row_sums bs !! k = Some n -> (number_to_explore <= n)%Q) ->
      (exists k, naive number_to_explore bs = Ret k
                 /\ first_max (empirical_means bs) k)
      /\ forall bs', rtc belief_step bs bs' ->
           Np.any_lt (row_sums bs') number_to_explore = false
           /\ exists k, naive number_to_explore bs' = Ret k
                        /\ first_max (empirical_means bs') k)
  /\ (forall (G : Type) (RS : RandomSource G) (n K : nat)
             (true_rewards : list (list bool)) (CTRs : list (list Q))
             (choice_func : Policy) (g : G) (st : loop_state),
        run_rounds n K true_rewards CTRs choice_func g = Ret st ->
        st_params st = bs ->
        (forall k, k < K ->
           exists n_k, row_sums bs !! k = Some n_k
             /\ (n_k == inject_Z (Z.of_nat (pulls (st_choices st) k)) + 2)%Q
             /\ ((n_k < number_to_explore)%Q
                 <-> (inject_Z (Z.of_nat (pulls (st_choices st) k))
                      < number_to_explore - 2)%Q))
        /\ (forall k, first_min (row_sums bs) k
                      <-> k < K
                          /\ (forall j, j < K ->
                                pulls (st_choices st) k <= pulls (st_choices st) j)
                          /\ (forall j, j < k ->
                                pulls (st_choices st) k < pulls (st_choices st) j))).
Proof.
  intros Hne. destruct (naive_on_row_totals number_to_explore bs Hne) as [Hexplore Hcommit].
  split; [exact Hexplore|]. split; [exact Hcommit|].
  intros G RS n K true_rewards CTRs choice_func g st Hrun <-.
  destruct (episode_row_totals _ _ _ _ _ _ _ Hrun) as [HK Htotals].
  set (P := pulls (st_choices st)) in *. split.
  - intros k Hk. destruct (Htotals k Hk) as (n_k & Hrow & Hn_k).
    exists n_k. split; [exact Hrow|]. split; [exact Hn_k|]. rewrite Hn_k. split; lra.
  - intros k. split.
    + intros (x & Hx & Hall & Hbefore).
      assert (k < K) as Hk by (rewrite <- HK; eapply lookup_lt_Some, Hx).
      destruct (Htotals k Hk) as (n_k & Hrow & Hn_k).
      rewrite Hx in Hrow. injection Hrow as <-.
      split; [exact Hk|]. split.
      * intros j Hj. destruct (Htotals j Hj) as (n_j & Hrow_j & Hn_j).
        pose proof (Hall j n_j Hrow_j). apply inject_nat_le. lra.
      * intros j Hj. destruct (Htotals j ltac:(lia)) as (n_j & Hrow_j & Hn_j).
        pose proof (Hbefore j n_j Hj Hrow_j). apply inject_nat_lt. lra.
    + intros (Hk & Hall & Hbefore).
      destruct (Htotals k Hk) as (n_k & Hrow & Hn_k).
      exists n_k. split; [exact Hrow|]. split.
      * intros j y Hy.
        assert (j < K) as Hj by (rewrite <- HK; eapply lookup_lt_Some, Hy).
        destruct (Htotals j Hj) as (n_j & Hrow_j & Hn_j).
        rewrite Hy in Hrow_j. injection Hrow_j as <-.
        pose proof (proj2 (inject_nat_le _ _) (Hall j Hj)). lra.
      * intros j y Hj Hy.
        destruct (Htotals j ltac:(lia)) as (n_j & Hrow_j & Hn_j).
        rewrite Hy in Hrow_j. injection Hrow_j as <-.
        pose proof (proj2 (inject_nat_lt _ _) (Hbefore j Hj)). lra.
Qed.

Lemma naive_explores_then_commits_witness :
  (exists k, naive number_to_explore_default [(1, 1); (3, 1); (1, 1)]%Q = Ret k
             /\ first_min (row_sums [(1, 1); (3, 1); (1, 1)]%Q) k)
  /\ (exists k, naive 3 [(1, 2); (3, 1)]%Q = Ret k
                /\ first_max (empirical_means [(1, 2); (3, 1)]%Q) k).
Proof.
  split.
  - destruct (naive_explores_then_commits number_to_explore_default
                [(1, 1); (3, 1); (1, 1)]%Q ltac:(discriminate)) as [Hexplore _].
    apply Hexplore. exists 0, (1 + 1)%Q. split; reflexivity.
  - destruct (naive_explores_then_commits 3 [(1, 2); (3, 1)]%Q ltac:(discriminate))
      as (_ & Hcommit & _).
    destruct Hcommit as [Hnow _]; [|exact Hnow].
    intros [|[|k]] n [= <-]; unfold Qle; cbn; lia.
Defined.

(** C3 as stated fails: after 196 rounds of an episode of [naive] over two
    arms each arm has been pulled 98 times, fewer than the budget 100,
    and the least-pulled arm (the first of the two) is arm 0; [naive]
    returns arm 1, the arm of greatest empirical success rate. *)
Lemma naive_exploits_after_98_pulls :
  exists st,
    run_rounds 196 2 ((fun i => [i <? 98; i <? 118]) <$> seq 0 196)
      (Np.tile [0.5; 0.6]%Q 196) (as_choice (naive number_to_explore_default))
      ([] : Tape.tape) = Ret st
    /\ st_params st = [(50, 50); (60, 40)]%Q
    /\ pulls (st_choices st) 0 = 98
    /\ pulls (st_choices st) 1 = 98
    /\ (inject_Z (Z.of_nat 98) < number_to_explore_default)%Q
    /\ Np.argmin (row_sums (st_params st)) = Ret 0
    /\ naive number_to_explore_default (st_params st) = Ret 1.
Proof.
  eexists. split; [vm_compute; reflexivity|].
  repeat split; vm_compute; reflexivity.
Qed.

(** ** The regret an episode returns *)

Lemma cumsum_from_length (acc : Q) (v : list Q) :
  length (Np.cumsum_from acc v) = length v.
Proof. revert acc. induction v as [|x v IH]; intros acc; cbn; [|rewrite IH]; reflexivity. Qed.

(** Entry [i] of [np.cumsum(v)] is the sum of [v[0..i]]. *)
Lemma cumsum_from_lookup (v : list Q) :
  forall (acc : Q) (i : nat),
    i < length v ->
    Np.cumsum_from acc v !! i = Some (fold_left Qplus (take (S i) v) acc).
Proof.
  induction v as [|x v IH]; intros acc i Hi; cbn in Hi; [lia|].
  destruct i as [|i]; [reflexivity|].
  cbn [Np.cumsum_from]. change ((?y :: ?l) !! S i) with (l !! i).
  rewrite IH by lia. reflexivity.
Qed.

Section Regret.

Context {G : Type} `{RandomSource G}.

Lemma run_rounds_god_regret (n K : nat) (true_rewards : list (list bool))
    (CTRs : list (list Q)) (choice_func : Policy) (g : G) (st : loop_state)
    (bandit_distri : list Q) (best : nat) :
  Np.max_axis0 CTRs = Ret bandit_distri ->
  Np.argmax bandit_distri = Ret best ->
  run_rounds n K true_rewards CTRs choice_func g = Ret st ->
  length (st_god_regret st) = length true_rewards
  /\ length (st_choices st) = n
  /\ forall i, i < n ->
       exists c rewards_i reward_best reward_choice,
         st_choices st !! i = Some c
         /\ true_rewards !! i = Some rewards_i
         /\ rewards_i !! best = Some reward_best
         /\ rewards_i !! c = Some reward_choice
         /\ st_god_regret st !! i
            = Some (realized_regret_spec reward_best reward_choice).
Proof.
  intros Hd Hb (bandit_distri' & best' & Hd' & Hb' & Hloop)%run_rounds_inv.
  rewrite Hd in Hd'. injection Hd' as <-. rewrite Hb in Hb'. injection Hb' as <-.
  apply (for_each_seq_invariant _
           (fun n st =>
              length (st_god_regret st) = length true_rewards
              /\ length (st_choices st) = n
              /\ forall i, i < n ->
                   exists c rewards_i reward_best reward_choice,
                     st_choices st !! i = Some c
                     /\ true_rewards !! i = Some rewards_i
                     /\ rewards_i !! best = Some reward_best
                     /\ rewards_i !! c = Some reward_choice
                     /\ st_god_regret st !! i
                        = Some (realized_regret_spec reward_best reward_choice))
           n 0 _ st) in Hloop; [exact Hloop | |].
  - cbn. split; [apply length_replicate|]. split; [reflexivity|]. intros i Hi. lia.
  - clear Hloop st. intros i st st' _ (Hlen & Hcs & Hsig) Hround.
    apply round_inv in Hround
      as (c & g' & rewards_i & rc & rb & best_p & CTRs_i & p & params'
          & _ & Hrow & Hrc & Hrb & _ & _ & _ & _ & ->).
    cbn [st_god_regret st_choices].
    split; [rewrite length_insert; exact Hlen|].
    split; [rewrite length_app, Hcs; cbn; lia|].
    intros j Hj. destruct (decide (j = i)) as [->|Hne].
    + exists c, rewards_i, rb, rc.
      split; [apply lookup_snoc_Some; right; auto|].
      repeat (split; [assumption|]).
      apply list_lookup_insert_eq. rewrite Hlen. eapply lookup_lt_Some, Hrow.
    + destruct (Hsig j ltac:(lia)) as (c0 & r0 & rb0 & rc0 & Hc0 & Hr0 & Hb0 & Hcc0 & Hg0).
      exists c0, r0, rb0, rc0.
      split; [apply lookup_app_l_Some, Hc0|].
      repeat (split; [assumption|]).
      rewrite list_lookup_insert_ne by congruence. exact Hg0.
Qed.

(** What [run_bandit_dynamic_alg] returns, for any policy. *)
Lemma run_bandit_dynamic_alg_signals (K : nat) (true_rewards : list (list bool))
    (CTRs : list (list Q)) (choice_func : Policy) (g : G) (out : list Q) (g' : G) :
  run_bandit_dynamic_alg K true_rewards CTRs choice_func g = Ret (out, g') ->
  exists st bandit_distri best,
    run_rounds (length true_rewards) K true_rewards CTRs choice_func g = Ret st
    /\ Np.max_axis0 CTRs = Ret bandit_distri
    /\ first_max bandit_distri best
    /\ out = Np.cumsum (st_god_regret st)
    /\ length out = length true_rewards
    /\ forall i, i < length true_rewards ->
         exists c rewards_i reward_best reward_choice,
           st_choices st !! i = Some c
           /\ true_rewards !! i = Some rewards_i
           /\ rewards_i !! best = Some reward_best
           /\ rewards_i !! c = Some reward_choice
           /\ st_god_regret st !! i
              = Some (realized_regret_spec reward_best reward_choice)
           /\ out !! i = Some (Np.sum (take (S i) (st_god_regret st))).
Proof.
  unfold run_bandit_dynamic_alg. intros Hrun.
  apply bind_ret_inv in Hrun as (st & Hst & Hret). cbv zeta in Hret.
  injection Hret as <- <-.
  destruct (run_rounds_inv _ _ _ _ _ _ _ Hst) as (bandit_distri & best & Hd & Hb & _).
  destruct (run_rounds_god_regret _ _ _ _ _ _ _ _ _ Hd Hb Hst) as (Hlen & _ & Hsig).
  exists st, bandit_distri, best.
  split; [exact Hst|]. split; [exact Hd|]. split; [apply argmax_first_max, Hb|].
  split; [reflexivity|].
  split; [unfold Np.cumsum; rewrite cumsum_from_length; exact Hlen|].
  intros i Hi. destruct (Hsig i Hi) as (c & r & rb & rc & Hc & Hr & Hrb & Hrc & Hg).
  exists c, r, rb, rc. repeat (split; [assumption|]).
  apply cumsum_from_lookup. rewrite Hlen. exact Hi.
Qed.

End Regret.

(** C2 (realized regret).  For any policy, the sequence
    [run_bandit_dynamic_alg] returns has one entry per round and is the
    running sum of the per-round signal, which at round i is +1 when the
    best true arm's reward at i is 1 and the chosen arm's is 0, -1 when
    the chosen arm's is 1 and the best arm's is 0, and 0 otherwise; the
    best true arm is the first maximum of the column maxima of the
    probabilities.  The running sum of the expected regret, computed
    beside it, is not what is returned: on the run shown the two differ. *)
Theorem returned_regret_is_running_realized_sum :
  (forall (G : Type) (RS : RandomSource G) (K : nat) (true_rewards : list (list bool))
          (CTRs : list (list Q)) (choice_func : Policy) (g : G)
          (out : list Q) (g' : G),
      run_bandit_dynamic_alg K true_rewards CTRs choice_func g = Ret (out, g') ->
      exists st bandit_distri best,
        run_rounds (length true_rewards) K true_rewards CTRs choice_func g = Ret st
        /\ Np.max_axis0 CTRs = Ret bandit_distri
        /\ first_max bandit_distri best
        /\ out = Np.cumsum (st_god_regret st)
        /\ length out = length true_rewards
        /\ forall i, i < length true_rewards ->
             exists c rewards_i reward_best reward_choice,
               st_choices st !! i = Some c
               /\ true_rewards !! i = Some rewards_i
               /\ rewards_i !! best = Some reward_best
               /\ rewards_i !! c = Some reward_choice
               /\ st_god_regret st !! i
                  = Some (realized_regret_spec reward_best reward_choice)
               /\ out !! i = Some (Np.sum (take (S i) (st_god_regret st))))
  /\ (exists st,
        run_rounds 3 2 [[true; false]; [false; true]; [true; true]]
          (Np.tile [0.3; 0.6]%Q 3) random ([1; 0; 1] : Tape.tape) = Ret st
        /\ run_bandit_dynamic_alg 2 [[true; false]; [false; true]; [true; true]]
             (Np.tile [0.3; 0.6]%Q 3) random ([1; 0; 1] : Tape.tape)
           = Ret ([0; 1; 1]%Q, [])
        /\ exists y, Np.cumsum (st_regret st) !! 1 = Some y /\ ~ (1 == y)%Q).
Proof.
  split.
  - intros G RS K true_rewards CTRs choice_func g out g'.
    apply run_bandit_dynamic_alg_signals.
  - eexists. split; [vm_compute; reflexivity|]. split; [vm_compute; reflexivity|].
    eexists. split; [vm_compute; reflexivity|]. vm_compute. discriminate.
Qed.

Lemma returned_regret_is_running_realized_sum_witness :
  exists st best,
    run_rounds 3 2 [[true; false]; [false; true]; [true; true]]
      (Np.tile [0.3; 0.6]%Q 3) random ([1; 0; 1] : Tape.tape) = Ret st
    /\ first_max [0.3; 0.6]%Q best
    /\ [0; 1; 1]%Q = Np.cumsum (st_god_regret st).
Proof.
  destruct returned_regret_is_running_realized_sum as [Hall _].
  destruct (Hall Tape.tape Tape.tape_source 2
              [[true; false]; [false; true]; [true; true]]
              (Np.tile [0.3; 0.6]%Q 3) random [1; 0; 1] [0; 1; 1]%Q [])
    as (st & distri & best & Hst & Hd & Hmax & Hout & _); [vm_compute; reflexivity|].
  exists st, best. split; [exact Hst|]. split; [|exact Hout].
  vm_compute in Hd. injection Hd as <-. exact Hmax.
Defined.

(** ** The fuel of the model *)

Section Determinism.

Context {G : Type} `{RandomSource G}.
Variables np_sqrt np_log : Q -> Q.

Lemma epsilon_greedy_ret_best (fuel : nat) (epsilon : Q) (bs : BeliefState) (g : G)
    (r : nat * G) :
  epsilon_greedy fuel epsilon bs g = Ret r ->
  exists best, Np.argmax (empirical_means bs) = Ret best.
Proof.
  unfold epsilon_greedy. cbv zeta. rewrite means_pointwise.
  destruct (Np.argmax (empirical_means bs)) as [best| |]; cbn;
    [eauto | discriminate | discriminate].
Qed.

(** The fuel given to [epsilon_greedy] does not show in what a policy
    returns. *)
Lemma policy_of_fuel_irrelevant (p : policy_name) (fuel1 fuel2 : nat)
    (bs : BeliefState) (g : G) (r1 r2 : nat * G) :
  policy_of np_sqrt np_log fuel1 p bs g = Ret r1 ->
  policy_of np_sqrt np_log fuel2 p bs g = Ret r2 ->
  r1 = r2.
Proof.
  destruct p; cbn [policy_of]; try congruence.
  intros H1 H2. destruct (epsilon_greedy_ret_best _ _ _ _ _ H1) as [best Hbest].
  rewrite (epsilon_greedy_unfold fuel1 _ _ _ _ Hbest) in H1.
  rewrite (epsilon_greedy_unfold fuel2 _ _ _ _ Hbest) in H2.
  destruct (Np.ltb (rand g).1 epsilon_default); [|congruence].
  eapply resample_deterministic; eassumption.
Qed.

Lemma round_agree (true_rewards : list (list bool)) (CTRs : list (list Q))
    (bandit_distri : list Q) (best : nat) (f1 f2 : Policy) (i : nat)
    (st st1 st2 : loop_state (G := G)) :
  (forall bs g r1 r2, f1 bs g = Ret r1 -> f2 bs g = Ret r2 -> r1 = r2) ->
  round true_rewards CTRs bandit_distri best f1 i st = Ret st1 ->
  round true_rewards CTRs bandit_distri best f2 i st = Ret st2 ->
  st1 = st2.
Proof.
  intros Hagree
    (c1 & g1 & w1 & rc1 & rb1 & bp1 & C1 & p1 & ps1
     & Hf1 & Hw1 & Hrc1 & Hrb1 & Hbp1 & HC1 & Hp1 & Hadd1 & ->)%round_inv
    (c2 & g2 & w2 & rc2 & rb2 & bp2 & C2 & p2 & ps2
     & Hf2 & Hw2 & Hrc2 & Hrb2 & Hbp2 & HC2 & Hp2 & Hadd2 & ->)%round_inv.
  pose proof (Hagree _ _ _ _ Hf1 Hf2) as Hc. injection Hc as <- <-.
  assert (w1 = w2) as <- by congruence.
  assert (rc1 = rc2) as <- by congruence.
  assert (rb1 = rb2) as <- by congruence.
  assert (bp1 = bp2) as <- by congruence.
  assert (C1 = C2) as <- by congruence.
  assert (p1 = p2) as <- by congruence.
  assert (ps1 = ps2) as <- by congruence.
  reflexivity.
Qed.

Lemma for_each_agree {S I : Type} (body1 body2 : I -> S -> outcome S) (l : list I) :
  (forall i s s1 s2, body1 i s = Ret s1 -> body2 i s = Ret s2 -> s1 = s2) ->
  forall s s1 s2,
    for_each body1 l s = Ret s1 -> for_each body2 l s = Ret s2 -> s1 = s2.
Proof.
  intros Hagree. induction l as [|i l IH]; intros s s1 s2 H1 H2; cbn in H1, H2.
  - congruence.
  - apply bind_ret_inv in H1 as (t1 & Hb1 & H1).
    apply bind_ret_inv in H2 as (t2 & Hb2 & H2).
    pose proof (Hagree _ _ _ _ Hb1 Hb2) as <-. eapply IH; eassumption.
Qed.

Lemma run_rounds_agree (n K : nat) (true_rewards : list (list bool))
    (CTRs : list (list Q)) (f1 f2 : Policy) (g : G) (st1 st2 : loop_state) :
  (forall bs g r1 r2, f1 bs g = Ret r1 -> f2 bs g = Ret r2 -> r1 = r2) ->
  run_rounds n K true_rewards CTRs f1 g = Ret st1 ->
  run_rounds n K true_rewards CTRs f2 g = Ret st2 ->
  st1 = st2.
Proof.
  intros Hagree (d1 & b1 & Hd1 & Hb1 & Hloop1)%run_rounds_inv
                (d2 & b2 & Hd2 & Hb2 & Hloop2)%run_rounds_inv.
  assert (d1 = d2) as <- by congruence. assert (b1 = b2) as <- by congruence.
  eapply for_each_agree; [|exact Hloop1|exact Hloop2].
  intros i s s1 s2. apply round_agree, Hagree.
Qed.

(** The fuel given to the loop of [epsilon_greedy] does not show in what
    an episode returns: two runs that both return are the same run round
    by round. *)
Lemma episode_fuel_irrelevant (p : policy_name) (fuel1 fuel2 K : nat)
    (true_rewards : list (list bool)) (CTRs : list (list Q)) (g : G)
    (out1 out2 : list Q) (g1 g2 : G) :
  run_bandit_dynamic_alg K true_rewards CTRs (policy_of np_sqrt np_log fuel1 p) g
  = Ret (out1, g1) ->
  run_bandit_dynamic_alg K true_rewards CTRs (policy_of np_sqrt np_log fuel2 p) g
  = Ret (out2, g2) ->
  out1 = out2 /\ g1 = g2
  /\ exists st,
       run_rounds (length true_rewards) K true_rewards CTRs
         (policy_of np_sqrt np_log fuel1 p) g = Ret st
       /\ run_rounds (length true_rewards) K true_rewards CTRs
            (policy_of np_sqrt np_log fuel2 p) g = Ret st
       /\ length (st_choices st) = length true_rewards.
Proof.
  unfold run_bandit_dynamic_alg.
  intros (st1 & Hst1 & Hret1)%bind_ret_inv (st2 & Hst2 & Hret2)%bind_ret_inv.
  cbv zeta in Hret1, Hret2. injection Hret1 as <- <-. injection Hret2 as <- <-.
  assert (st1 = st2) as <-.
  { eapply run_rounds_agree; [|exact Hst1|exact Hst2].
    intros bs g0 r1 r2. apply policy_of_fuel_irrelevant. }
  split; [reflexivity|]. split; [reflexivity|].
  exists st1. split; [exact Hst1|]. split; [exact Hst2|].
  apply (run_rounds_beliefs _ _ _ _ _ _ _ Hst1).
Qed.

End Determinism.

(** ** Two runs of the episode runner in one process *)

Lemma store_lookup_old (s l : store) (r : ref) (a : array) :
  s !! r = Some a -> (s ++ l) !! r = Some a.
Proof. apply lookup_app_l_Some. Qed.

Lemma store_lookup_new (s l : store) (k : nat) : (s ++ l) !! (length s + k) = l !! k.
Proof. induction s as [|a s IH]; [reflexivity | exact IH]. Qed.

Lemma store_insert_new (s l : store) (k : nat) (x : array) :
  <[length s + k := x]> (s ++ l) = s ++ <[k := x]> l.
Proof. induction s as [|a s IH]; [reflexivity|]. cbn. f_equal. exact IH. Qed.

Lemma load_bools_old (s l : store) (r : ref) (m : list (list bool)) :
  s !! r = Some (BoolMatrix m) -> load_bools r (s ++ l) = Ret m.
Proof. intros Hr. unfold load_bools. rewrite (store_lookup_old _ _ _ _ Hr). reflexivity. Qed.

Lemma load_floats_old (s l : store) (r : ref) (c : list (list Q)) :
  s !! r = Some (FloatMatrix c) -> load_floats r (s ++ l) = Ret c.
Proof. intros Hr. unfold load_floats. rewrite (store_lookup_old _ _ _ _ Hr). reflexivity. Qed.

Lemma load_beliefs_new (s l : store) (k : nat) (bs : BeliefState) :
  l !! k = Some (BetaMatrix bs) -> load_beliefs (length s + k) (s ++ l) = Ret bs.
Proof. intros Hk. unfold load_beliefs. rewrite store_lookup_new, Hk. reflexivity. Qed.

Lemma load_vector_new (s l : store) (k : nat) (v : list Q) :
  l !! k = Some (FloatVector v) -> load_vector (length s + k) (s ++ l) = Ret v.
Proof. intros Hk. unfold load_vector. rewrite store_lookup_new, Hk. reflexivity. Qed.

Section StoreRuns.

Context {G : Type} `{RandomSource G}.

(** A round over the store does to the three arrays of the call what
    [round] does to the variables of the loop, and leaves the rest of the
    store as it is. *)
Lemma round_in_store_reading (s : store) (true_rewards CTRs : ref)
    (m : list (list bool)) (c : list (list Q)) (bandit_distri : list Q)
    (best_bandit_idx : nat) (estimated_beta_params regret god_regret : ref)
    (choice_func : Policy) (i : nat) (st : loop_state (G := G)) :
  s !! true_rewards = Some (BoolMatrix m) ->
  s !! CTRs = Some (FloatMatrix c) ->
  estimated_beta_params = length s + 0 ->
  regret = length s + 1 ->
  god_regret = length s + 2 ->
  round_in_store true_rewards CTRs bandit_distri best_bandit_idx
    estimated_beta_params regret god_regret (reading choice_func) i
    (store_state_of s st)
  = (st' ← round m c bandit_distri best_bandit_idx choice_func i st;
     Ret (store_state_of s st')).
Proof.
  intros Hm Hc -> -> ->. unfold round_in_store, round, reading, store_state_of.
  cbn [ss_store ss_rng ss_choices]. cbv zeta.
  rewrite (load_beliefs_new s (episode_arrays st) 0 _ eq_refl).
  cbn [mbind outcome_bind].
  destruct (choice_func (st_params st) (st_rng st)) as [[this_choice g']| |];
    cbn [mbind outcome_bind]; [|reflexivity..].
  rewrite (load_bools_old _ _ _ _ Hm). cbn [mbind outcome_bind].
  destruct (getitem m i) as [rewards_i| |] eqn:Hrow; cbn [mbind outcome_bind]; [|reflexivity..].
  destruct (getitem rewards_i this_choice) as [reward_choice| |] eqn:Hrc;
    cbn [mbind outcome_bind]; [|reflexivity..].
  rewrite (load_beliefs_new s (episode_arrays st) 0 _ eq_refl). cbn [mbind outcome_bind].
  destruct (add_one (st_params st) this_choice _) as [params'| |];
    cbn [mbind outcome_bind]; [|reflexivity..].
  destruct (getitem bandit_distri best_bandit_idx) as [best_p| |];
    cbn [mbind outcome_bind]; [|reflexivity..].
  rewrite !store_insert_new. cbn [episode_arrays insert list_insert].
  rewrite (load_floats_old _ _ _ _ Hc). cbn [mbind outcome_bind].
  destruct (getitem c i) as [CTRs_i| |]; cbn [mbind outcome_bind]; [|reflexivity..].
  destruct (getitem CTRs_i this_choice) as [p| |]; cbn [mbind outcome_bind]; [|reflexivity..].
  rewrite (load_vector_new s [_; _; _] 1 _ eq_refl). cbn [mbind outcome_bind].
  rewrite !store_insert_new. cbn [insert list_insert].
  rewrite (load_bools_old _ _ _ _ Hm). cbn [mbind outcome_bind].
  rewrite Hrow. cbn [mbind outcome_bind].
  destruct (getitem rewards_i best_bandit_idx) as [reward_best| |];
    cbn [mbind outcome_bind]; [|reflexivity..].
  rewrite Hrc. cbn [mbind outcome_bind].
  rewrite (load_vector_new s [_; _; _] 2 _ eq_refl). cbn [mbind outcome_bind].
  rewrite !store_insert_new. cbn [insert list_insert].
  unfold mret, outcome_ret, episode_arrays. cbn [st_params st_regret st_god_regret st_choices st_rng].
  destruct (reward_best && negb reward_choice); [reflexivity|].
  destruct (negb reward_best && reward_choice); reflexivity.
Qed.

Lemma for_each_in_store_reading (s : store) (true_rewards CTRs : ref)
    (m : list (list bool)) (c : list (list Q)) (bandit_distri : list Q)
    (best_bandit_idx : nat) (estimated_beta_params regret god_regret : ref)
    (choice_func : Policy) (l : list nat) (st : loop_state (G := G)) :
  s !! true_rewards = Some (BoolMatrix m) ->
  s !! CTRs = Some (FloatMatrix c) ->
  estimated_beta_params = length s + 0 ->
  regret = length s + 1 ->
  god_regret = length s + 2 ->
  for_each (round_in_store true_rewards CTRs bandit_distri best_bandit_idx
              estimated_beta_params regret god_regret (reading choice_func))
    l (store_state_of s st)
  = (st' ← for_each (round m c bandit_distri best_bandit_idx choice_func) l st;
     Ret (store_state_of s st')).
Proof.
  intros Hm Hc Hp Hr Hg. revert st. induction l as [|i l IH]; intros st; [reflexivity|].
  cbn [for_each]. rewrite (round_in_store_reading s _ _ m c) by assumption.
  destruct (round m c bandit_distri best_bandit_idx choice_func i st) as [st'| |];
    cbn [mbind outcome_bind]; [apply IH | reflexivity | reflexivity].
Qed.

(** A call on a store that holds the reward matrix [m] and the
    probabilities [c] is the episode on [m] and [c]: it returns what the
    episode returns, and the store it leaves is the store it found followed
    by its own three arrays. *)
Lemma run_in_store_reading (K : nat) (s : store) (true_rewards CTRs : ref)
    (m : list (list bool)) (c : list (list Q)) (choice_func : Policy) (g : G) :
  s !! true_rewards = Some (BoolMatrix m) ->
  s !! CTRs = Some (FloatMatrix c) ->
  run_bandit_dynamic_alg_in_store K true_rewards CTRs (reading choice_func) s g
  = (st ← run_rounds (length m) K m c choice_func g;
     Ret (Np.cumsum (st_god_regret st), store_state_of s st)).
Proof.
  intros Hm Hc. unfold run_bandit_dynamic_alg_in_store, run_rounds, new_array.
  unfold load_bools at 1. rewrite Hm. cbn [mbind outcome_bind]. cbv zeta.
  rewrite <- !app_assoc. cbn [app].
  rewrite (load_floats_old _ _ _ _ Hc). cbn [mbind outcome_bind].
  destruct (Np.max_axis0 c) as [bandit_distri| |]; cbn [mbind outcome_bind];
    [|reflexivity..].
  destruct (Np.argmax bandit_distri) as [best_bandit_idx| |]; cbn [mbind outcome_bind];
    [|reflexivity..].
  change {| ss_store := s ++ [BetaMatrix (prior_beliefs K);
                              FloatVector (Np.zeros (length m));
                              FloatVector (Np.zeros (length m))];
            ss_choices := []; ss_rng := g |}
    with (store_state_of s (initial_state (length m) K g)).
  rewrite (for_each_in_store_reading s _ _ m c) by
    (first [assumption | rewrite ?length_app; cbn [length]; lia]).
  destruct (for_each _ (seq 0 (length m)) (initial_state (length m) K g)) as [st| |];
    cbn [mbind outcome_bind]; [|reflexivity..].
  rewrite !length_app. cbn [length]. unfold store_state_of. cbn [ss_store].
  rewrite (load_vector_new s (episode_arrays st) 1 _ eq_refl).
  rewrite (load_vector_new s (episode_arrays st) 2 _ eq_refl).
  reflexivity.
Qed.

Variables np_sqrt np_log : Q -> Q.

(** C9 (determinism).  A call of the episode runner that returns, made
    on a store in which its two arguments refer to a reward matrix [m] and
    to probabilities [c], leaves every array that it found as it was, its
    two arguments among them.  A second call on the store that the first
    one left, with the same arguments, the same policy of the six and the
    random source in the same state, returns the same cumulative regret
    after the same choices, and so does a call on any store in which the
    arguments refer to the same [m] and [c].  Every call creates its own
    belief matrix, with the prior (1, 1) in each row: what the arrays of
    earlier calls hold does not show in it. *)
Theorem episode_deterministic (p : policy_name) (fuel K : nat) (s : store)
    (true_rewards CTRs : ref) (m : list (list bool)) (c : list (list Q)) (g : G)
    (god_cum_regret : list Q) (st : store_state (G := G)) :
  s !! true_rewards = Some (BoolMatrix m) ->
  s !! CTRs = Some (FloatMatrix c) ->
  run_bandit_dynamic_alg_in_store K true_rewards CTRs
    (reading (policy_of np_sqrt np_log fuel p)) s g = Ret (god_cum_regret, st) ->
  length (ss_choices st) = length m
  /\ (forall r a, s !! r = Some a -> ss_store st !! r = Some a)
  /\ (exists st',
        run_bandit_dynamic_alg_in_store K true_rewards CTRs
          (reading (policy_of np_sqrt np_log fuel p)) (ss_store st) g
        = Ret (god_cum_regret, st')
        /\ ss_choices st' = ss_choices st /\ ss_rng st' = ss_rng st)
  /\ forall (s' : store) (true_rewards' CTRs' : ref),
       s' !! true_rewards' = Some (BoolMatrix m) ->
       s' !! CTRs' = Some (FloatMatrix c) ->
       exists st',
         run_bandit_dynamic_alg_in_store K true_rewards' CTRs'
           (reading (policy_of np_sqrt np_log fuel p)) s' g
         = Ret (god_cum_regret, st')
         /\ ss_choices st' = ss_choices st /\ ss_rng st' = ss_rng st.
Proof.
  intros Hm Hc Hrun. rewrite (run_in_store_reading _ _ _ _ m c) in Hrun by assumption.
  destruct (run_rounds (length m) K m c (policy_of np_sqrt np_log fuel p) g)
    as [pst| |] eqn:Hpure; cbn [mbind outcome_bind] in Hrun; [|discriminate..].
  injection Hrun as <- <-.
  assert (forall (s' : store) (true_rewards' CTRs' : ref),
            s' !! true_rewards' = Some (BoolMatrix m) ->
            s' !! CTRs' = Some (FloatMatrix c) ->
            exists st',
              run_bandit_dynamic_alg_in_store K true_rewards' CTRs'
                (reading (policy_of np_sqrt np_log fuel p)) s' g
              = Ret (Np.cumsum (st_god_regret pst), st')
              /\ ss_choices st' = st_choices pst /\ ss_rng st' = st_rng pst) as Hany.
  { intros s' true_rewards' CTRs' Hm' Hc'. exists (store_state_of s' pst).
    rewrite (run_in_store_reading _ _ _ _ m c) by assumption.
    rewrite Hpure. repeat split. }
  assert (forall r a, s !! r = Some a -> (s ++ episode_arrays pst) !! r = Some a) as Hframe.
  { intros r a. apply store_lookup_old. }
  split; [apply (run_rounds_beliefs _ _ _ _ _ _ _ Hpure)|].
  split; [exact Hframe|]. split; [|exact Hany].
  apply Hany; apply Hframe; assumption.
Qed.

End StoreRuns.

Lemma episode_deterministic_witness :
  exists out st st',
    run_bandit_dynamic_alg_in_store 2 0 1
      (reading (policy_of Tape.sqrt_approx Tape.log_approx 3 EpsilonGreedy))
      [BoolMatrix [[true; false]; [false; true]; [true; true]];
       FloatMatrix (Np.tile [0.3; 0.6]%Q 3)]
      ([500; 5; 0; 0; 1; 700] : Tape.tape) = Ret (out, st)
    /\ length (ss_store st) = 5
    /\ run_bandit_dynamic_alg_in_store 2 0 1
         (reading (policy_of Tape.sqrt_approx Tape.log_approx 3 EpsilonGreedy))
         (ss_store st) ([500; 5; 0; 0; 1; 700] : Tape.tape) = Ret (out, st')
    /\ length (ss_store st') = 8
    /\ ss_choices st' = ss_choices st.
Proof.
  destruct (run_bandit_dynamic_alg_in_store 2 0 1
              (reading (policy_of Tape.sqrt_approx Tape.log_approx 3 EpsilonGreedy))
              [BoolMatrix [[true; false]; [false; true]; [true; true]];
               FloatMatrix (Np.tile [0.3; 0.6]%Q 3)]
              ([500; 5; 0; 0; 1; 700] : Tape.tape))
    as [[out st]| |] eqn:Hrun; [|vm_compute in Hrun; discriminate..].
  destruct (episode_deterministic Tape.sqrt_approx Tape.log_approx EpsilonGreedy 3 2
              [BoolMatrix [[true; false]; [false; true]; [true; true]];
               FloatMatrix (Np.tile [0.3; 0.6]%Q 3)]
              0 1 [[true; false]; [false; true]; [true; true]]
              (Np.tile [0.3; 0.6]%Q 3) _ out st eq_refl eq_refl Hrun)
    as (_ & _ & (st' & Hagain & Hchoices & _) & _).
  exists out, st, st'. split; [reflexivity|].
  assert (length (ss_store st) = 5) as Hfive.
  { vm_compute in Hrun. injection Hrun as <- <-. reflexivity. }
  split; [exact Hfive|]. split; [exact Hagain|]. split; [|exact Hchoices].
  vm_compute in Hrun. injection Hrun as <- <-.
  vm_compute in Hagain. injection Hagain as <-. reflexivity.
Defined.

(** ** The vector of arm probabilities of the driver *)

Section DriverCalls.

Context {G : Type} `{RandomSource G}.
Variables np_sqrt np_log : Q -> Q.




End DriverCalls.



(** ** The counts of the belief state, in pulls *)

Lemma fold_plus_proper (l : list Q) (acc acc' : Q) :
  (acc == acc')%Q -> (fold_left Qplus l acc == fold_left Qplus l acc')%Q.
Proof.
  revert acc acc'. induction l as [|x l IH]; intros acc acc' Hacc; cbn; [exact Hacc|].
  apply IH. rewrite Hacc. reflexivity.
Qed.

Lemma fold_plus_shift (l : list Q) (acc d : Q) :
  (fold_left Qplus l (acc + d) == fold_left Qplus l acc + d)%Q.
Proof.
  revert acc. induction l as [|x l IH]; intros acc; cbn; [reflexivity|].
  rewrite <- IH. apply fold_plus_proper. ring.
Qed.

Lemma sum_insert (l : list Q) (i : nat) (x y : Q) :
  l !! i = Some x -> (Np.sum (<[i := y]> l) == Np.sum l - x + y)%Q.
Proof.
  unfold Np.sum. generalize 0%Q as acc. revert i.
  induction l as [|a l IH]; intros i acc Hi; [discriminate|].
  destruct i as [|i]; cbn in Hi |- *.
  - injection Hi as ->.
    rewrite (fold_plus_proper l (acc + y) (acc + x + (y - x))) by ring.
    rewrite fold_plus_shift. ring.
  - apply IH, Hi.
Qed.

(** Every update adds one to the sum of all entries. *)
Lemma sum_all_add_one (bs bs' : BeliefState) (c u : nat) :
  add_one bs c u = Ret bs' -> (sum_all bs' == sum_all bs + 1)%Q.
Proof.
  intros (a & b & Hc & Hcase)%add_one_inv. rewrite !sum_all_rows.
  assert (row_sums bs !! c = Some (a + b)%Q) as Hrow.
  { unfold row_sums. rewrite list_lookup_fmap, Hc. reflexivity. }
  destruct Hcase as [[_ ->]|[_ ->]]; unfold row_sums at 1;
    rewrite list_fmap_insert; fold (row_sums bs);
    rewrite (sum_insert _ _ _ _ Hrow); cbn [fst snd]; ring.
Qed.

Lemma sum_all_prior (K : nat) :
  (sum_all (prior_beliefs K) == 2 * inject_Z (Z.of_nat K))%Q.
Proof.
  rewrite sum_all_rows. unfold prior_beliefs, row_sums, Np.sum.
  rewrite fmap_replicate. cbn [fst snd].
  induction K as [|K IH]; [reflexivity|].
  cbn [replicate fold_left].
  eapply Qeq_trans; [apply fold_plus_shift|].
  replace (S K) with (K + 1) by lia.
  pose proof (inject_nat_S K) as HS.
  set (x := fold_left Qplus _ _) in *.
  set (y := inject_Z (Z.of_nat K)) in *.
  set (z := inject_Z (Z.of_nat (K + 1))) in *.
  unfold prior_a, prior_b. lra.
Qed.

Section CountsInPulls.

Context {G : Type} `{RandomSource G}.

(** X14 (the total count).  After [n] rounds of an episode, with any
    policy, the sum of all entries of the belief state -- the t of [UCB]
    -- is n + 2 K: the pulls so far and the two prior observations of
    every arm. *)
Lemma episode_sum_all (n K : nat) (true_rewards : list (list bool))
    (CTRs : list (list Q)) (choice_func : Policy) (g : G) (st : loop_state) :
  run_rounds n K true_rewards CTRs choice_func g = Ret st ->
  (sum_all (st_params st) == inject_Z (Z.of_nat n) + 2 * inject_Z (Z.of_nat K))%Q.
Proof.
  intros (bandit_distri & best & _ & _ & Hloop)%run_rounds_inv.
  apply (for_each_seq_invariant _
           (fun i st =>
              sum_all (st_params st)
              == inject_Z (Z.of_nat i) + 2 * inject_Z (Z.of_nat K))%Q
           n 0 _ st) in Hloop; [exact Hloop | |].
  - cbn [initial_state st_params]. rewrite sum_all_prior. cbn. ring.
  - clear Hloop st. intros i st st' _ Hsum Hround.
    apply round_inv in Hround
      as (c & g' & rewards_i & rc & rb & best_p & CTRs_i & p & params'
          & _ & _ & _ & _ & _ & _ & _ & Hadd & ->).
    cbn [st_params]. rewrite (sum_all_add_one _ _ _ _ Hadd), Hsum.
    replace (S i) with (i + 1) by lia. rewrite inject_nat_S. ring.
Qed.

(** X15 (the budget of naive, in pulls).  On the belief state of any
    round of an episode the exploration test of [naive] succeeds exactly
    when some arm has fewer than [number_to_explore - 2] pulls: the count
    it compares with the budget holds the two prior observations. *)
Lemma episode_naive_explores (n K : nat) (true_rewards : list (list bool))
    (CTRs : list (list Q)) (choice_func : Policy) (g : G) (st : loop_state)
    (number_to_explore : Q) :
  run_rounds n K true_rewards CTRs choice_func g = Ret st ->
  Np.any_lt (row_sums (st_params st)) number_to_explore = true
  <-> exists k, k < K
        /\ (inject_Z (Z.of_nat (pulls (st_choices st) k)) < number_to_explore - 2)%Q.
Proof.
  intros Hrun. destruct (run_rounds_beliefs _ _ _ _ _ _ _ Hrun) as (_ & Hreach & Hsum).
  rewrite any_lt_true. split.
  - intros (k & n_k & Hk & Hlt). unfold row_sums in Hk. rewrite list_lookup_fmap in Hk.
    destruct (st_params st !! k) as [[a b]|] eqn:Hrow; [|discriminate].
    injection Hk as <-. cbn [fst snd] in Hlt.
    destruct (reachable_beliefs_row _ _ _ _ _ Hreach Hrow) as (HkK & _).
    exists k. split; [exact HkK|]. pose proof (Hsum k a b Hrow). lra.
  - intros (k & HkK & Hlt).
    destruct (lookup_lt_is_Some_2 (st_params st) k) as [[a b] Hrow].
    { rewrite (reachable_beliefs_length _ _ Hreach). exact HkK. }
    exists k, (a + b)%Q. split.
    + unfold row_sums. rewrite list_lookup_fmap, Hrow. reflexivity.
    + pose proof (Hsum k a b Hrow). lra.
Qed.

End CountsInPulls.

Lemma episode_sum_all_witness :
  exists st,
    run_rounds 2 2 [[true; false]; [false; true]; [true; true]]
      (Np.tile [0.3; 0.6]%Q 3) random ([1; 0; 1] : Tape.tape) = Ret st
    /\ (sum_all (st_params st) == 6)%Q.
Proof.
  destruct (run_rounds 2 2 [[true; false]; [false; true]; [true; true]]
              (Np.tile [0.3; 0.6]%Q 3) random ([1; 0; 1] : Tape.tape))
    as [st| |] eqn:Hrun; [|vm_compute in Hrun; discriminate..].
  exists st. split; [reflexivity|].
  rewrite (episode_sum_all _ _ _ _ _ _ _ Hrun). reflexivity.
Defined.

Lemma episode_naive_explores_witness :
  exists st,
    run_rounds 2 2 [[true; false]; [false; true]; [true; true]]
      (Np.tile [0.3; 0.6]%Q 3) (as_choice (naive 3)) ([] : Tape.tape) = Ret st
    /\ Np.any_lt (row_sums (st_params st)) 3 = false
    /\ ~ exists k, k < 2 /\ (inject_Z (Z.of_nat (pulls (st_choices st) k)) < 3 - 2)%Q.
Proof.
  destruct (run_rounds 2 2 [[true; false]; [false; true]; [true; true]]
              (Np.tile [0.3; 0.6]%Q 3) (as_choice (naive 3)) ([] : Tape.tape))
    as [st| |] eqn:Hrun; [|vm_compute in Hrun; discriminate..].
  exists st. split; [reflexivity|].
  assert (Np.any_lt (row_sums (st_params st)) 3 = false) as Hno.
  { vm_compute in Hrun. injection Hrun as <-. reflexivity. }
  split; [exact Hno|].
  intros Hsome. apply (episode_naive_explores _ _ _ _ _ _ _ 3 Hrun) in Hsome. congruence.
Defined.

(** ** UCB-Tuned and the pulls of an episode *)




(** * Further properties of the code *)

(** ** The reward generator *)

Lemma entry_Some {A : Type} (m : list (list A)) (i j : nat) (x : A) :
  entry m i j = Some x <-> exists r, m !! i = Some r /\ r !! j = Some x.
Proof.
  unfold entry. destruct (m !! i) as [r|]; cbn.
  - split; [eauto | intros (r' & [= <-] & Hx); exact Hx].
  - split; [discriminate | intros (r' & [=] & _)].
Qed.

Lemma has_shape_entry {A : Type} (n k : nat) (m : list (list A)) (i j : nat) :
  has_shape n k m -> i < n -> j < k -> exists x, entry m i j = Some x.
Proof.
  intros [Hlen Hrows] Hi Hj.
  destruct (lookup_lt_is_Some_2 m i) as [r Hr]; [lia|].
  rewrite Forall_lookup in Hrows. specialize (Hrows i r Hr).
  destruct (lookup_lt_is_Some_2 r j) as [x Hx]; [lia|].
  exists x. apply entry_Some. eauto.
Qed.

Lemma less_vector_inv (u c : list Q) (r : list bool) :
  less_vector u c = Ret r ->
  length u = length c /\ r = zip_with Np.ltb u c.
Proof.
  unfold less_vector. destruct (length u =? length c) eqn:Hlen; [|discriminate].
  apply Nat.eqb_eq in Hlen. intros [= <-]. auto.
Qed.

Lemma less_matrix_inv (u : list (list Q)) :
  forall (c : list (list Q)) (m : list (list bool)),
    less_matrix u c = Ret m ->
    length m = length u
    /\ forall i ru rc, u !! i = Some ru -> c !! i = Some rc ->
         length ru = length rc /\ m !! i = Some (zip_with Np.ltb ru rc).
Proof.
  induction u as [|ru0 u IH]; intros [|rc0 c] m Hm; cbn in Hm; try discriminate.
  - injection Hm as <-. split; [reflexivity|]. intros i ru rc [=].
  - apply bind_ret_inv in Hm as (r & [Hlen ->]%less_vector_inv & Hm).
    apply bind_ret_inv in Hm as (m' & Hm' & Hm). injection Hm as <-.
    destruct (IH c m' Hm') as [Hlen' Hrows]. split; [cbn; lia|].
    intros [|i] ru rc Hu Hc; cbn in Hu, Hc |- *.
    + injection Hu as <-. injection Hc as <-. auto.
    + apply (Hrows i); assumption.
Qed.

Lemma less_matrix_ret (u : list (list Q)) :
  forall (n k : nat) (c : list (list Q)),
    has_shape n k u -> has_shape n k c ->
    exists m, less_matrix u c = Ret m /\ has_shape n k m.
Proof.
  induction u as [|ru u IH]; intros n k [|rc c] [Hn Hu] [Hn' Hc]; cbn in Hn, Hn'; try lia.
  - exists []. split; [reflexivity|]. split; [exact Hn | constructor].
  - apply Forall_cons in Hu as [Hru Hu]. apply Forall_cons in Hc as [Hrc Hc].
    destruct (IH (length u) k c) as (m & Hm & [Hlm Hrm]); [split; auto | split; [lia | auto] |].
    exists (zip_with Np.ltb ru rc :: m). split.
    + cbn. unfold less_vector. rewrite Hru, Hrc, Nat.eqb_refl. cbn. rewrite Hm. reflexivity.
    + split; [cbn; lia|]. constructor; [|exact Hrm].
      rewrite length_zip_with. lia.
Qed.

Section Generator.

Context {G : Type} `{RandomSource G}.

Lemma rand_vector_spec (n : nat) (g : G) :
  length (rand_vector n g).1 = n
  /\ Forall (fun u => 0 <= u /\ u < 1)%Q (rand_vector n g).1.
Proof.
  revert g. induction n as [|n IH]; intros g; cbn [rand_vector].
  - split; [reflexivity | constructor].
  - pose proof (rand_range g) as Hu. destruct (rand g) as [u g1]. cbn [fst] in Hu.
    specialize (IH g1). destruct (rand_vector n g1) as [v g2]. cbn [fst] in IH |- *.
    destruct IH as [Hlen Hall]. split; [cbn; lia | constructor; assumption].
Qed.

Lemma rand_matrix_spec (n k : nat) (g : G) :
  has_shape n k (rand_matrix n k g).1
  /\ Forall (Forall (fun u => 0 <= u /\ u < 1)%Q) (rand_matrix n k g).1.
Proof.
  revert g. induction n as [|n IH]; intros g; cbn [rand_matrix].
  - split; [split; [reflexivity | constructor] | constructor].
  - pose proof (rand_vector_spec k g) as [Hk Hr]. destruct (rand_vector k g) as [r g1].
    cbn [fst] in Hk, Hr. specialize (IH g1). destruct (rand_matrix n k g1) as [m g2].
    cbn [fst] in IH |- *. destruct IH as [[Hlen Hrows] Hall].
    split; [split; [cbn; lia | constructor; assumption] | constructor; assumption].
Qed.

Lemma generate_inv (CTRs : list (list Q)) (num_samples K : nat) (g : G)
    (true_rewards : list (list bool)) (g' : G) :
  generate_bernoulli_bandit_data CTRs num_samples K g = Ret (true_rewards, g') ->
  g' = (rand_matrix num_samples K g).2
  /\ less_matrix (rand_matrix num_samples K g).1 CTRs = Ret true_rewards.
Proof.
  unfold generate_bernoulli_bandit_data. destruct (rand_matrix num_samples K g) as [u g1].
  intros (m & Hm & [= <- <-])%bind_ret_inv. auto.
Qed.

Lemma generate_entry (CTRs : list (list Q)) (num_samples K : nat) (g : G)
    (true_rewards : list (list bool)) (g' : G) (i k : nat) (b : bool) (p : Q) :
  generate_bernoulli_bandit_data CTRs num_samples K g = Ret (true_rewards, g') ->
  entry true_rewards i k = Some b ->
  entry CTRs i k = Some p ->
  exists u, entry (rand_matrix num_samples K g).1 i k = Some u
            /\ (0 <= u /\ u < 1)%Q /\ b = Np.ltb u p.
Proof.
  intros [_ Hless]%generate_inv (r & Hr & Hb)%entry_Some (rc & Hrc & Hp)%entry_Some.
  destruct (less_matrix_inv _ _ _ Hless) as [Hlen Hrows].
  destruct (lookup_lt_is_Some_2 (rand_matrix num_samples K g).1 i) as [ru Hru].
  { rewrite <- Hlen. eapply lookup_lt_Some, Hr. }
  destruct (Hrows i ru rc Hru Hrc) as [_ Hr']. rewrite Hr in Hr'. injection Hr' as ->.
  apply lookup_zip_with_Some in Hb as (u & p' & -> & Hu & Hp').
  rewrite Hp in Hp'. injection Hp' as <-.
  exists u. split; [apply entry_Some; eauto|]. split; [|reflexivity].
  destruct (rand_matrix_spec num_samples K g) as [_ Hrange].
  rewrite Forall_lookup in Hrange. specialize (Hrange i ru Hru).
  rewrite Forall_lookup in Hrange. apply (Hrange k u Hu).
Qed.

(** X1 (reward generator, shape).  Given probabilities of shape
    num_samples x K, [generate_bernoulli_bandit_data] returns a reward
    matrix of the same shape, having drawn exactly the num_samples x K
    uniform numbers of [np.random.rand(num_samples, K)]; entry (i, k) is a
    reward exactly when the (i, k)-th number drawn is below the
    probability of entry (i, k). *)
Theorem generate_bernoulli_bandit_data_shape (CTRs : list (list Q))
    (num_samples K : nat) (g : G) :
  has_shape num_samples K CTRs ->
  exists true_rewards,
    generate_bernoulli_bandit_data CTRs num_samples K g
    = Ret (true_rewards, (rand_matrix num_samples K g).2)
    /\ has_shape num_samples K true_rewards
    /\ forall i k, i < num_samples -> k < K ->
         exists b u p,
           entry true_rewards i k = Some b
           /\ entry (rand_matrix num_samples K g).1 i k = Some u
           /\ entry CTRs i k = Some p
           /\ (b = true <-> (u < p)%Q).
Proof.
  intros Hshape. destruct (rand_matrix_spec num_samples K g) as [Hu _].
  destruct (less_matrix_ret _ _ _ _ Hu Hshape) as (m & Hm & Hm_shape).
  assert (generate_bernoulli_bandit_data CTRs num_samples K g
          = Ret (m, (rand_matrix num_samples K g).2)) as Hgen.
  { unfold generate_bernoulli_bandit_data.
    destruct (rand_matrix num_samples K g) as [u g1]. cbn [fst snd] in *.
    rewrite Hm. reflexivity. }
  exists m. split; [exact Hgen|]. split; [exact Hm_shape|].
  intros i k Hi Hk.
  destruct (has_shape_entry _ _ _ i k Hm_shape Hi Hk) as [b Hb].
  destruct (has_shape_entry _ _ _ i k Hshape Hi Hk) as [p Hp].
  destruct (generate_entry _ _ _ _ _ _ i k b p Hgen Hb Hp) as (u & Hue & _ & ->).
  exists (Np.ltb u p), u, p. repeat (split; [assumption|]). apply ltb_lt.
Qed.

(** X2 (reward generator, sure arms).  In a generated reward matrix an
    entry whose probability is 0 or less is never a reward, and an entry
    whose probability is 1 or more always is: the numbers drawn are in
    [0, 1). *)
Theorem generate_bernoulli_bandit_data_sure (CTRs : list (list Q))
    (num_samples K : nat) (g : G) (true_rewards : list (list bool)) (g' : G)
    (i k : nat) (b : bool) (p : Q) :
  generate_bernoulli_bandit_data CTRs num_samples K g = Ret (true_rewards, g') ->
  entry true_rewards i k = Some b ->
  entry CTRs i k = Some p ->
  ((p <= 0)%Q -> b = false) /\ ((1 <= p)%Q -> b = true).
Proof.
  intros Hgen Hb Hp.
  destruct (generate_entry _ _ _ _ _ _ i k b p Hgen Hb Hp) as (u & _ & [Hu0 Hu1] & ->).
  split; intros Hp'; [apply ltb_ge | apply ltb_lt]; lra.
Qed.

End Generator.

Lemma generate_bernoulli_bandit_data_shape_witness :
  has_shape 2 2 (Np.tile [0.3; 0.6]%Q 2)
  /\ exists true_rewards,
       generate_bernoulli_bandit_data (Np.tile [0.3; 0.6]%Q 2) 2 2
         ([100; 700; 500; 500; 9] : Tape.tape) = Ret (true_rewards, [9])
       /\ has_shape 2 2 true_rewards.
Proof.
  assert (has_shape 2 2 (Np.tile [0.3; 0.6]%Q 2)) as Hshape.
  { split; [reflexivity | repeat constructor]. }
  split; [exact Hshape|].
  destruct (generate_bernoulli_bandit_data_shape (Np.tile [0.3; 0.6]%Q 2) 2 2
              ([100; 700; 500; 500; 9] : Tape.tape) Hshape)
    as (true_rewards & Hgen & Htr & _).
  exists true_rewards. split; [exact Hgen | exact Htr].
Defined.

Lemma generate_bernoulli_bandit_data_sure_witness :
  generate_bernoulli_bandit_data (Np.tile [0; 1]%Q 1) 1 2 ([100; 999] : Tape.tape)
  = Ret ([[false; true]], [])
  /\ Some false = entry [[false; true]] 0 0
  /\ Some true = entry [[false; true]] 0 1.
Proof.
  assert (generate_bernoulli_bandit_data (Np.tile [0; 1]%Q 1) 1 2
            ([100; 999] : Tape.tape) = Ret ([[false; true]], [])) as Hgen
    by reflexivity.
  split; [exact Hgen|].
  pose proof (generate_bernoulli_bandit_data_sure _ _ _ _ _ _ 0 0 false 0
                Hgen eq_refl eq_refl) as [Hnever _].
  pose proof (generate_bernoulli_bandit_data_sure _ _ _ _ _ _ 0 1 true 1
                Hgen eq_refl eq_refl) as [_ Halways].
  split; reflexivity.
Defined.

(** ** The policies at their edges *)

(** X3 (no arm).  On a belief state with no arm each of the six policies
    raises [ValueError]: [random] from [np.random.randint(0, 0)], the
    others from [np.argmax] of an empty vector. *)
Theorem policies_raise_on_no_arm {G : Type} `{RandomSource G}
    (np_sqrt np_log : Q -> Q) (fuel : nat) (p : policy_name) (g : G) :
  policy_of np_sqrt np_log fuel p [] g = Raise ValueError.
Proof.
  destruct p; try reflexivity.
  cbn [policy_of]. unfold thompson_sampling. cbn [column0 column1 fmap list_fmap].
  pose proof (rbeta_length [] [] g eq_refl) as Hlen.
  destruct (rbeta [] [] g) as [[|x samples] g']; [reflexivity | discriminate].
Qed.



Section PolicyEdges.

Context {G : Type} `{RandomSource G}.

(** X6 (epsilon of 1 or more).  With epsilon >= 1, on a belief state with
    at least one arm, [epsilon_greedy] always takes its exploration
    branch: whatever it returns is not the best-mean arm, and with a
    single arm it returns nothing, whatever the fuel. *)
Theorem epsilon_greedy_always_explores (fuel : nat) (epsilon : Q)
    (bs : BeliefState) (g : G) :
  (1 <= epsilon)%Q ->
  bs <> [] ->
  Np.ltb (rand g).1 epsilon = true
  /\ (forall k g', epsilon_greedy fuel epsilon bs g = Ret (k, g') ->
        exists best, Np.argmax (empirical_means bs) = Ret best /\ k <> best)
  /\ (length bs = 1 -> epsilon_greedy fuel epsilon bs g = OutOfFuel).
Proof.
  intros Heps Hne.
  assert (Np.ltb (rand g).1 epsilon = true) as Hexplore.
  { apply ltb_lt. pose proof (rand_range g). lra. }
  split; [exact Hexplore|]. split.
  - intros k g' Hret.
    destruct (epsilon_greedy_best bs Hne) as (best & Hbest & _ & Hlt).
    exists best. split; [exact Hbest|].
    rewrite (epsilon_greedy_unfold fuel epsilon bs g best Hbest), Hexplore in Hret.
    destruct (resample_cases fuel (length bs) best
                (randint 0 (length bs) (rand g).2).1
                (randint 0 (length bs) (rand g).2).2) as [Hout|(k1 & g1 & Hk1 & _ & Hb)].
    + apply (randint_range 0 (length bs)). lia.
    + congruence.
    + rewrite Hk1 in Hret. injection Hret as <- <-. exact Hb.
  - intros Hlen. apply epsilon_greedy_single_arm; assumption.
Qed.

End PolicyEdges.

Lemma epsilon_greedy_always_explores_witness :
  (1 <= 1)%Q
  /\ forall k g',
       epsilon_greedy 3 1 [(1, 1); (3, 1); (2, 5)]%Q ([999; 1; 2] : Tape.tape)
       = Ret (k, g') -> k <> 1.
Proof.
  split; [apply Qle_refl|].
  destruct (epsilon_greedy_always_explores 3 1 [(1, 1); (3, 1); (2, 5)]%Q
              ([999; 1; 2] : Tape.tape) (Qle_refl 1) ltac:(discriminate))
    as (_ & Hother & _).
  intros k g' Hret. destruct (Hother k g' Hret) as (best & Hbest & Hne).
  vm_compute in Hbest. injection Hbest as <-. exact Hne.
Defined.

(** ** Runs that do not raise *)

Lemma finishes_ret {A : Type} (may_starve : Prop) (P : A -> Prop) (a : A) :
  P a -> finishes may_starve P (Ret a).
Proof. intros Ha. right. eauto. Qed.

Lemma bind_finishes {A B : Type} (may_starve : Prop) (P : A -> Prop) (Q : B -> Prop)
    (m : outcome A) (k : A -> outcome B) :
  finishes may_starve P m ->
  (forall a, P a -> finishes may_starve Q (k a)) ->
  finishes may_starve Q (m ≫= k).
Proof.
  intros [[Hs ->]|(a & -> & Ha)] Hk; [left; auto | apply Hk, Ha].
Qed.

Lemma finishes_weaken {A : Type} (may_starve : Prop) (P Q : A -> Prop) (o : outcome A) :
  (forall a, P a -> Q a) -> finishes may_starve P o -> finishes may_starve Q o.
Proof. intros HPQ [[Hs ->]|(a & -> & Ha)]; [left; auto | right; eauto]. Qed.

Lemma for_each_finishes {S I : Type} (may_starve : Prop) (body : I -> S -> outcome S)
    (Inv : S -> Prop) (l : list I) :
  (forall i s, i ∈ l -> Inv s -> finishes may_starve Inv (body i s)) ->
  forall s, Inv s -> finishes may_starve Inv (for_each body l s).
Proof.
  induction l as [|i l IH]; intros Hbody s Hs; cbn.
  - apply finishes_ret, Hs.
  - apply (bind_finishes _ Inv); [apply Hbody; [left | exact Hs]|].
    intros s' Hs'. apply IH; [|exact Hs'].
    intros j t Hj. apply Hbody. right. exact Hj.
Qed.

Lemma max_axis0_shape (n K : nat) (CTRs : list (list Q)) :
  0 < n -> has_shape n K CTRs ->
  exists bandit_distri, Np.max_axis0 CTRs = Ret bandit_distri
                        /\ length bandit_distri = K.
Proof.
  intros Hn [Hlen Hrows]. destruct CTRs as [|r m]; [cbn in Hlen; lia|].
  apply Forall_cons in Hrows as [Hr Hm]. eexists. split; [reflexivity|].
  clear Hlen. revert r Hr. induction m as [|r' m IH]; intros r Hr; [exact Hr|].
  apply Forall_cons in Hm as [Hr' Hm]. cbn. apply IH; [exact Hm|].
  rewrite length_zip_with. lia.
Qed.

Section SafeRuns.

Context {G : Type} `{RandomSource G}.
Variables np_sqrt np_log : Q -> Q.

Lemma returns_arm_below_finishes (may_starve : Prop) (K : nat) (o : outcome (nat * G)) :
  returns_arm_below K o -> finishes may_starve (fun r => r.1 < K) o.
Proof. intros (k & g' & -> & Hk). right. exists (k, g'). auto. Qed.

Lemma policy_of_finishes (K fuel : nat) (p : policy_name) :
  0 < K ->
  policy_finishes True K (policy_of np_sqrt np_log fuel p)
  /\ (p <> EpsilonGreedy -> policy_finishes False K (policy_of np_sqrt np_log fuel p)).
Proof.
  intros HK.
  assert (forall bs : BeliefState, length bs = K -> bs <> []) as Hne.
  { intros bs Hlen ->. cbn in Hlen. lia. }
  assert (p <> EpsilonGreedy ->
          forall may_starve, policy_finishes may_starve K (policy_of np_sqrt np_log fuel p))
    as Hfive.
  { intros Hp may_starve bs g Hlen. apply returns_arm_below_finishes. rewrite <- Hlen.
    specialize (Hne bs Hlen). destruct p; cbn [policy_of]; try congruence.
    - apply random_below, Hne.
    - apply as_choice_below, naive_below, Hne.
    - apply as_choice_below, UCB_below, Hne.
    - apply as_choice_below, UCB_bernoulli_below, Hne.
    - apply thompson_sampling_below, Hne. }
  split; [|intros Hp; apply Hfive, Hp].
  destruct (decide (p = EpsilonGreedy)) as [->|Hp]; [|apply Hfive, Hp].
  intros bs g Hlen. cbn [policy_of].
  destruct (epsilon_greedy_below fuel epsilon_default bs g (Hne bs Hlen)) as [Hout|Hret].
  - left. auto.
  - apply returns_arm_below_finishes. rewrite <- Hlen. exact Hret.
Qed.

(** A round on rows of K entries, with a policy that stays in range,
    does not raise and keeps the shapes. *)
Lemma round_finishes (may_starve : Prop) (K N : nat) (true_rewards : list (list bool))
    (CTRs : list (list Q)) (bandit_distri : list Q) (best : nat)
    (choice_func : Policy) (i : nat) (st : loop_state (G := G)) :
  has_shape N K true_rewards ->
  has_shape N K CTRs ->
  length bandit_distri = K ->
  best < K ->
  i < N ->
  policy_finishes may_starve K choice_func ->
  length (st_params st) = K /\ length (st_god_regret st) = N ->
  finishes may_starve
    (fun st' => length (st_params st') = K /\ length (st_god_regret st') = N)
    (round true_rewards CTRs bandit_distri best choice_func i st).
Proof.
  intros [Htr_len Htr] [Hc_len Hc] Hd Hbest Hi Hpolicy [Hparams Hgod]. unfold round.
  apply (bind_finishes _ (fun r => r.1 < K)); [apply Hpolicy, Hparams|].
  intros [c g'] Hc_lt. cbn [fst] in Hc_lt.
  destruct (lookup_lt_is_Some_2 true_rewards i) as [rewards_i Hrow]; [lia|].
  rewrite Forall_lookup in Htr. specialize (Htr i rewards_i Hrow).
  destruct (lookup_lt_is_Some_2 rewards_i c) as [rc Hrc]; [lia|].
  destruct (lookup_lt_is_Some_2 rewards_i best) as [rb Hrb]; [lia|].
  destruct (lookup_lt_is_Some_2 CTRs i) as [CTRs_i Hci]; [lia|].
  rewrite Forall_lookup in Hc. specialize (Hc i CTRs_i Hci).
  destruct (lookup_lt_is_Some_2 CTRs_i c) as [p Hp]; [lia|].
  destruct (lookup_lt_is_Some_2 bandit_distri best) as [best_p Hbp]; [lia|].
  destruct (lookup_lt_is_Some_2 (st_params st) c) as [[a b] Hab]; [lia|].
  unfold getitem, add_one. rewrite Hrow. cbn. rewrite Hrc. cbn. rewrite Hab.
  destruct rc; cbn; rewrite Hbp; cbn; rewrite Hci; cbn; rewrite Hp; cbn;
    rewrite Hrb; cbn; apply finishes_ret; cbn [st_params st_god_regret];
    (split; [rewrite length_insert; exact Hparams|]);
    destruct rb; cbn; rewrite length_insert; exact Hgod.
Qed.

Lemma run_rounds_finishes (may_starve : Prop) (n K : nat)
    (true_rewards : list (list bool)) (CTRs : list (list Q))
    (choice_func : Policy) (g : G) :
  0 < K ->
  0 < length true_rewards ->
  n <= length true_rewards ->
  has_shape (length true_rewards) K true_rewards ->
  has_shape (length true_rewards) K CTRs ->
  policy_finishes may_starve K choice_func ->
  finishes may_starve
    (fun st => length (st_params st) = K
               /\ length (st_god_regret st) = length true_rewards)
    (run_rounds n K true_rewards CTRs choice_func g).
Proof.
  intros HK HN Hn Htr Hc Hpolicy. unfold run_rounds.
  destruct (max_axis0_shape _ _ _ HN Hc) as (bandit_distri & -> & Hd). cbn.
  destruct (argmax_below bandit_distri K Hd HK) as (best & -> & Hbest). cbn.
  apply for_each_finishes.
  - intros i st Hi%list_elem_of_In%in_seq Hst.
    apply (round_finishes may_starve K (length true_rewards)); auto. lia.
  - cbn. split; [apply length_replicate | apply length_replicate].
Qed.

Lemma run_bandit_dynamic_alg_finishes (may_starve : Prop) (K : nat)
    (true_rewards : list (list bool)) (CTRs : list (list Q))
    (choice_func : Policy) (g : G) :
  0 < K ->
  0 < length true_rewards ->
  has_shape (length true_rewards) K true_rewards ->
  has_shape (length true_rewards) K CTRs ->
  policy_finishes may_starve K choice_func ->
  finishes may_starve (fun r => length r.1 = length true_rewards)
    (run_bandit_dynamic_alg K true_rewards CTRs choice_func g).
Proof.
  intros HK HN Htr Hc Hpolicy. unfold run_bandit_dynamic_alg.
  eapply bind_finishes; [apply run_rounds_finishes; eauto|].
  intros st [_ Hgod]. cbv zeta. apply finishes_ret. cbn [fst].
  unfold Np.cumsum. rewrite cumsum_from_length. exact Hgod.
Qed.

(** X7 (the runner returns).  On a reward matrix and probabilities of
    one shape, with at least one round and one arm: if the policy, on
    every belief state of K arms, returns an arm of [0, K), the runner
    returns a sequence with one entry per round; if the policy may also
    be stopped by its fuel, the runner returns such a sequence or is
    stopped too; in neither case does it raise. *)
Theorem run_bandit_dynamic_alg_returns (K : nat) (true_rewards : list (list bool))
    (CTRs : list (list Q)) (choice_func : Policy) (g : G) :
  0 < K ->
  0 < length true_rewards ->
  has_shape (length true_rewards) K true_rewards ->
  has_shape (length true_rewards) K CTRs ->
  ((forall bs g, length bs = K -> returns_arm_below K (choice_func bs g)) ->
     exists out g',
       run_bandit_dynamic_alg K true_rewards CTRs choice_func g = Ret (out, g')
       /\ length out = length true_rewards)
  /\ ((forall bs g, length bs = K ->
         choice_func bs g = OutOfFuel \/ returns_arm_below K (choice_func bs g)) ->
      run_bandit_dynamic_alg K true_rewards CTRs choice_func g = OutOfFuel
      \/ exists out g',
           run_bandit_dynamic_alg K true_rewards CTRs choice_func g = Ret (out, g')
           /\ length out = length true_rewards).
Proof.
  intros HK HN Htr Hc. split.
  - intros Hpolicy.
    destruct (run_bandit_dynamic_alg_finishes False K true_rewards CTRs choice_func g)
      as [[[] _]|([out g'] & Hret & Hlen)]; auto.
    + intros bs g0 Hlen. apply returns_arm_below_finishes, Hpolicy, Hlen.
    + eauto.
  - intros Hpolicy.
    destruct (run_bandit_dynamic_alg_finishes True K true_rewards CTRs choice_func g)
      as [[_ Hout]|([out g'] & Hret & Hlen)]; auto.
    + intros bs g0 Hlen. destruct (Hpolicy bs g0 Hlen) as [Hout|Hret].
      * left. auto.
      * apply returns_arm_below_finishes, Hret.
    + eauto.
Qed.

(** X8 (the runner with the six policies).  On a reward matrix and
    probabilities of one shape, with at least one round and one arm, the
    runner returns one regret per round with [random], [naive], [UCB],
    [UCB_bernoulli] and [thompson_sampling]; with [epsilon_greedy] it
    returns one regret per round or is stopped inside the resampling
    loop; it raises with none of them. *)
Theorem run_bandit_dynamic_alg_six_policies (fuel : nat) (p : policy_name) (K : nat)
    (true_rewards : list (list bool)) (CTRs : list (list Q)) (g : G) :
  0 < K ->
  0 < length true_rewards ->
  has_shape (length true_rewards) K true_rewards ->
  has_shape (length true_rewards) K CTRs ->
  (p <> EpsilonGreedy ->
     exists out g',
       run_bandit_dynamic_alg K true_rewards CTRs (policy_of np_sqrt np_log fuel p) g
       = Ret (out, g')
       /\ length out = length true_rewards)
  /\ (run_bandit_dynamic_alg K true_rewards CTRs (policy_of np_sqrt np_log fuel p) g
      = OutOfFuel
      \/ exists out g',
           run_bandit_dynamic_alg K true_rewards CTRs
             (policy_of np_sqrt np_log fuel p) g = Ret (out, g')
           /\ length out = length true_rewards).
Proof.
  intros HK HN Htr Hc. destruct (policy_of_finishes K fuel p HK) as [Hsix Hfive]. split.
  - intros Hp.
    destruct (run_bandit_dynamic_alg_finishes False K true_rewards CTRs
                (policy_of np_sqrt np_log fuel p) g)
      as [[[] _]|([out g'] & Hret & Hlen)]; auto. eauto.
  - destruct (run_bandit_dynamic_alg_finishes True K true_rewards CTRs
                (policy_of np_sqrt np_log fuel p) g)
      as [[_ Hout]|([out g'] & Hret & Hlen)]; auto. eauto.
Qed.

End SafeRuns.

Lemma run_bandit_dynamic_alg_returns_witness :
  has_shape 3 2 [[true; false]; [false; true]; [true; true]]
  /\ exists out g',
       run_bandit_dynamic_alg 2 [[true; false]; [false; true]; [true; true]]
         (Np.tile [0.3; 0.6]%Q 3) random ([1; 0; 1; 7] : Tape.tape) = Ret (out, g')
       /\ length out = 3.
Proof.
  assert (has_shape 3 2 [[true; false]; [false; true]; [true; true]]) as Htr.
  { split; [reflexivity | repeat constructor]. }
  assert (has_shape 3 2 (Np.tile [0.3; 0.6]%Q 3)) as Hc.
  { split; [reflexivity | repeat constructor]. }
  split; [exact Htr|].
  destruct (run_bandit_dynamic_alg_returns 2 [[true; false]; [false; true]; [true; true]]
              (Np.tile [0.3; 0.6]%Q 3) random ([1; 0; 1; 7] : Tape.tape)
              ltac:(lia) ltac:(cbn; lia) Htr Hc) as [Hret _].
  apply Hret. intros bs g Hlen. rewrite <- Hlen. apply random_below.
  intros ->. discriminate.
Defined.

Lemma run_bandit_dynamic_alg_six_policies_witness :
  has_shape 3 2 [[true; false]; [false; true]; [true; true]]
  /\ exists out g',
       run_bandit_dynamic_alg 2 [[true; false]; [false; true]; [true; true]]
         (Np.tile [0.3; 0.6]%Q 3)
         (policy_of Tape.sqrt_approx Tape.log_approx 0 UCBTuned)
         ([7] : Tape.tape) = Ret (out, g')
       /\ length out = 3.
Proof.
  assert (has_shape 3 2 [[true; false]; [false; true]; [true; true]]) as Htr.
  { split; [reflexivity | repeat constructor]. }
  assert (has_shape 3 2 (Np.tile [0.3; 0.6]%Q 3)) as Hc.
  { split; [reflexivity | repeat constructor]. }
  split; [exact Htr|].
  destruct (run_bandit_dynamic_alg_six_policies Tape.sqrt_approx Tape.log_approx
              0 UCBTuned 2 [[true; false]; [false; true]; [true; true]]
              (Np.tile [0.3; 0.6]%Q 3) ([7] : Tape.tape)
              ltac:(lia) ltac:(cbn; lia) Htr Hc) as [Hret _].
  apply Hret. discriminate.
Defined.

(** ** The runner at its edges *)

Lemma for_each_raise_first {S I : Type} (body : I -> S -> outcome S) (i : I)
    (l : list I) (s : S) (e : exn) :
  body i s = Raise e -> for_each body (i :: l) s = Raise e.
Proof. intros Hb. cbn. rewrite Hb. reflexivity. Qed.

Section RunnerEdges.

Context {G : Type} `{RandomSource G}.

(** X9 (an arm out of range).  If the policy answers the first round
    with an arm that is not below K, the runner raises [IndexError],
    whatever the reward matrix of at least one round holds. *)
Theorem run_bandit_dynamic_alg_index_error (K : nat) (true_rewards : list (list bool))
    (CTRs : list (list Q)) (choice_func : Policy) (g : G)
    (bandit_distri : list Q) (best c : nat) (g' : G) :
  Np.max_axis0 CTRs = Ret bandit_distri ->
  Np.argmax bandit_distri = Ret best ->
  0 < length true_rewards ->
  choice_func (prior_beliefs K) g = Ret (c, g') ->
  K <= c ->
  run_bandit_dynamic_alg K true_rewards CTRs choice_func g = Raise IndexError.
Proof.
  intros Hd Hb HN Hchoice Hc. unfold run_bandit_dynamic_alg, run_rounds.
  rewrite Hd. cbn. rewrite Hb. cbn.
  destruct true_rewards as [|rewards_0 true_rewards]; [cbn in HN; lia|].
  cbn [length seq]. rewrite (for_each_raise_first _ _ _ _ IndexError); [reflexivity|].
  unfold round. cbn [initial_state st_params st_rng]. rewrite Hchoice. cbn.
  destruct (rewards_0 !! c) as [rc|] eqn:Hrc.
  - replace (getitem rewards_0 c) with (Ret rc)
      by (unfold getitem; rewrite Hrc; reflexivity).
    cbn. unfold add_one.
    assert (prior_beliefs K !! c = None) as ->; [|reflexivity].
    apply lookup_ge_None. unfold prior_beliefs. rewrite length_replicate. exact Hc.
  - replace (getitem rewards_0 c) with (Raise IndexError : outcome bool)
      by (unfold getitem; rewrite Hrc; reflexivity).
    reflexivity.
Qed.

(** X10 (no round, no probabilities, no arm).  Without probabilities
    ([CTRs] has no row) the runner raises [ValueError], and so it does
    when the probabilities have rows but no column; with probabilities
    of at least one row and one column and a reward matrix of no row it
    returns the empty sequence and leaves the random source untouched,
    without asking the policy. *)
Theorem run_bandit_dynamic_alg_degenerate (K : nat) (true_rewards : list (list bool))
    (CTRs : list (list Q)) (choice_func : Policy) (g : G) :
  (CTRs = [] ->
     run_bandit_dynamic_alg K true_rewards CTRs choice_func g = Raise ValueError)
  /\ (CTRs <> [] -> Forall (fun r => r = []) CTRs ->
      run_bandit_dynamic_alg K true_rewards CTRs choice_func g = Raise ValueError)
  /\ (forall n k, 0 < n -> 0 < k -> has_shape n k CTRs -> true_rewards = [] ->
      run_bandit_dynamic_alg K true_rewards CTRs choice_func g = Ret ([], g)).
Proof.
  split; [intros ->; reflexivity|]. split.
  - intros Hne Hempty. destruct CTRs as [|r m]; [congruence|].
    apply Forall_cons in Hempty as [-> Hm].
    unfold run_bandit_dynamic_alg, run_rounds. cbn [Np.max_axis0].
    assert (fold_left (zip_with Qmax) m [] = []) as ->; [|reflexivity].
    clear Hne. induction m as [|r m IH]; [reflexivity|].
    apply Forall_cons in Hm as [-> Hm]. cbn. apply IH, Hm.
  - intros n k Hn Hk Hshape ->.
    destruct (max_axis0_shape _ _ _ Hn Hshape) as (bandit_distri & Hd & Hlen).
    destruct (argmax_below bandit_distri k Hlen Hk) as (best & Hb & _).
    unfold run_bandit_dynamic_alg, run_rounds. rewrite Hd. cbn. rewrite Hb. reflexivity.
Qed.

End RunnerEdges.

Lemma run_bandit_dynamic_alg_index_error_witness :
  2 <= 5
  /\ run_bandit_dynamic_alg 2 [[true; false]] (Np.tile [0.3; 0.6]%Q 1)
       (fun _ g => Ret (5, g)) ([] : Tape.tape) = Raise IndexError.
Proof.
  split; [lia|].
  apply (run_bandit_dynamic_alg_index_error 2 [[true; false]] (Np.tile [0.3; 0.6]%Q 1)
           (fun _ g => Ret (5, g)) ([] : Tape.tape) [0.3; 0.6]%Q 1 5 []);
    [reflexivity | reflexivity | cbn; lia | reflexivity | lia].
Defined.

(** ** Bounds on the regret returned *)

Lemma realized_regret_spec_cases (best_reward chosen_reward : bool) :
  realized_regret_spec best_reward chosen_reward = 1%Q
  \/ realized_regret_spec best_reward chosen_reward = 0%Q
  \/ realized_regret_spec best_reward chosen_reward = (-1)%Q.
Proof. destruct best_reward, chosen_reward; cbn; auto. Qed.

Lemma cumsum_from_bound (v : list Q) :
  Forall (fun x => -1 <= x /\ x <= 1)%Q v ->
  forall (acc : Q) (i : nat) (y : Q),
    Np.cumsum_from acc v !! i = Some y ->
    (acc - inject_Z (Z.of_nat (i + 1)) <= y /\ y <= acc + inject_Z (Z.of_nat (i + 1)))%Q.
Proof.
  induction 1 as [|x v [Hx1 Hx2] _ IH]; intros acc i y Hy; [discriminate|].
  destruct i as [|i]; cbn in Hy.
  - injection Hy as <-. change (inject_Z (Z.of_nat (0 + 1))) with 1%Q. lra.
  - specialize (IH _ _ _ Hy). pose proof (inject_nat_S (i + 1)) as HS.
    replace (S i + 1) with (i + 1 + 1) by lia.
    set (a := inject_Z (Z.of_nat (i + 1))) in *.
    set (b := inject_Z (Z.of_nat (i + 1 + 1))) in *. lra.
Qed.

Lemma cumsum_from_step (v : list Q) :
  forall (acc : Q) (i : nat) (y y' : Q),
    Np.cumsum_from acc v !! i = Some y ->
    Np.cumsum_from acc v !! S i = Some y' ->
    exists x, v !! S i = Some x /\ y' = (y + x)%Q.
Proof.
  induction v as [|x v IH]; intros acc i y y' Hy Hy'; [discriminate|].
  destruct i as [|i]; cbn in Hy, Hy'.
  - injection Hy as <-. destruct v as [|x' v]; [discriminate|].
    cbn in Hy'. injection Hy' as <-. exists x'. auto.
  - apply (IH _ _ _ _ Hy Hy').
Qed.

Lemma cumsum_from_zero (v : list Q) :
  Forall (fun x => x == 0)%Q v ->
  forall (acc : Q) (i : nat) (y : Q),
    Np.cumsum_from acc v !! i = Some y -> (y == acc)%Q.
Proof.
  induction 1 as [|x v Hx _ IH]; intros acc i y Hy; [discriminate|].
  destruct i as [|i]; cbn in Hy.
  - injection Hy as <-. lra.
  - rewrite (IH _ _ _ Hy). lra.
Qed.

Section RegretBounds.

Context {G : Type} `{RandomSource G}.

(** X11 (the regret stays within the rounds played).  In a returned
    sequence the entry of round i is between -(i + 1) and i + 1, the
    first entry is 1, 0 or -1, and consecutive entries differ by 1, 0 or
    -1. *)
Theorem returned_regret_bounded (K : nat) (true_rewards : list (list bool))
    (CTRs : list (list Q)) (choice_func : Policy) (g : G) (out : list Q) (g' : G) :
  run_bandit_dynamic_alg K true_rewards CTRs choice_func g = Ret (out, g') ->
  (forall i y, out !! i = Some y ->
     (- inject_Z (Z.of_nat (i + 1)) <= y /\ y <= inject_Z (Z.of_nat (i + 1)))%Q)
  /\ (forall y, out !! 0 = Some y -> (y == 1 \/ y == 0 \/ y == -1)%Q)
  /\ (forall i y y', out !! i = Some y -> out !! S i = Some y' ->
        (y' - y == 1 \/ y' - y == 0 \/ y' - y == -1)%Q).
Proof.
  intros (st & d & best & Hst & _ & _ & Hout & Hlen & Hsig)%run_bandit_dynamic_alg_signals.
  subst out. unfold Np.cumsum in *. rewrite cumsum_from_length in Hlen.
  assert (forall i x, st_god_regret st !! i = Some x -> x = 1%Q \/ x = 0%Q \/ x = (-1)%Q)
    as Hcases.
  { intros i x Hx. destruct (Hsig i) as (c & r & rb & rc & _ & _ & _ & _ & Hg & _).
    { rewrite <- Hlen. eapply lookup_lt_Some, Hx. }
    rewrite Hx in Hg. injection Hg as ->. apply realized_regret_spec_cases. }
  split; [|split].
  - intros i y Hy.
    assert (Forall (fun x => -1 <= x /\ x <= 1)%Q (st_god_regret st)) as Hall.
    { apply Forall_lookup. intros j x Hx.
      destruct (Hcases j x Hx) as [-> | [-> | ->]]; split; unfold Qle; cbn; lia. }
    pose proof (cumsum_from_bound _ Hall _ _ _ Hy). lra.
  - intros y Hy. destruct (st_god_regret st) as [|x v] eqn:Hv; [discriminate|].
    cbn in Hy. injection Hy as <-.
    destruct (Hcases 0 x eq_refl) as [-> | [-> | ->]];
      [left | right; left | right; right]; reflexivity.
  - intros i y y' Hy Hy'.
    destruct (cumsum_from_step _ _ _ _ _ Hy Hy') as (x & Hx & ->).
    destruct (Hcases _ x Hx) as [-> | [-> | ->]];
      [left | right; left | right; right]; ring.
Qed.

(** X12 (no regret on the best arm).  If every arm chosen in a run is
    the best true arm (the first maximum of the column maxima of the
    probabilities), every entry of the returned sequence is 0. *)
Theorem best_arm_has_no_regret (K : nat) (true_rewards : list (list bool))
    (CTRs : list (list Q)) (choice_func : Policy) (g : G) (out : list Q) (g' : G)
    (st : loop_state) (bandit_distri : list Q) (best : nat) :
  run_bandit_dynamic_alg K true_rewards CTRs choice_func g = Ret (out, g') ->
  run_rounds (length true_rewards) K true_rewards CTRs choice_func g = Ret st ->
  Np.max_axis0 CTRs = Ret bandit_distri ->
  Np.argmax bandit_distri = Ret best ->
  (forall i c, st_choices st !! i = Some c -> c = best) ->
  forall i y, out !! i = Some y -> (y == 0)%Q.
Proof.
  intros Hrun Hst Hd Hb Hbest i y Hy.
  unfold run_bandit_dynamic_alg in Hrun. rewrite Hst in Hrun. cbn in Hrun.
  injection Hrun as <- <-.
  destruct (run_rounds_god_regret _ _ _ _ _ _ _ _ _ Hd Hb Hst) as (Hlen & _ & Hsig).
  assert (Forall (fun x => x == 0)%Q (st_god_regret st)) as Hzero.
  { apply Forall_lookup. intros j x Hx.
    destruct (Hsig j) as (c & r & rb & rc & Hc & _ & Hrb & Hrc & Hg).
    { rewrite <- Hlen. eapply lookup_lt_Some, Hx. }
    rewrite (Hbest j c Hc) in Hrc. rewrite Hrb in Hrc. injection Hrc as <-.
    rewrite Hx in Hg. injection Hg as ->. destruct rb; reflexivity. }
  apply (cumsum_from_zero _ Hzero _ _ _ Hy).
Qed.

Lemma indicator_sum_zero (K a n : nat) :
  a + n <= K ->
  sum_list_with (fun k => if decide (K = k) then 1 else 0) (seq a n) = 0.
Proof.
  revert a. induction n as [|n IH]; intros a Han; [reflexivity|].
  cbn. destruct (decide (K = a)); [lia|]. rewrite IH by lia. reflexivity.
Qed.

Lemma indicator_sum (c K : nat) :
  c < K ->
  sum_list_with (fun k => if decide (c = k) then 1 else 0) (seq 0 K) = 1.
Proof.
  induction K as [|K IH]; intros Hc; [lia|].
  rewrite seq_S, sum_list_with_app. cbn.
  destruct (decide (c = K)) as [->|Hne].
  - rewrite indicator_sum_zero by lia. reflexivity.
  - rewrite IH by lia. lia.
Qed.

Lemma pulls_total (K : nat) (choices : list nat) :
  Forall (fun c => c < K) choices ->
  sum_list_with (pulls choices) (seq 0 K) = length choices.
Proof.
  induction 1 as [|c choices Hc _ IH].
  - cbn. induction (seq 0 K) as [|k l IHl]; [reflexivity | cbn; exact IHl].
  - assert (forall l,
              sum_list_with (pulls (c :: choices)) l
              = sum_list_with (pulls choices) l
                + sum_list_with (fun k => if decide (c = k) then 1 else 0) l) as Hsplit.
    { induction l as [|k l IHl]; [reflexivity|].
      cbn [sum_list_with]. rewrite IHl. unfold pulls. cbn [count_occ].
      destruct (Nat.eq_dec c k), (decide (c = k)); try congruence; lia. }
    rewrite Hsplit, IH, (indicator_sum c K Hc). cbn. lia.
Qed.

(** X13 (the arms chosen).  Every arm chosen in a run that came back,
    after any number n of rounds and with any policy, is below K, and the
    pulls of the K arms add up to n. *)
Theorem chosen_arms_in_range (n K : nat) (true_rewards : list (list bool))
    (CTRs : list (list Q)) (choice_func : Policy) (g : G) (st : loop_state) :
  run_rounds n K true_rewards CTRs choice_func g = Ret st ->
  Forall (fun c => c < K) (st_choices st)
  /\ sum_list_with (pulls (st_choices st)) (seq 0 K) = n.
Proof.
  intros Hrun. pose proof (run_rounds_beliefs _ _ _ _ _ _ _ Hrun) as (Hlen & _ & _).
  assert (Forall (fun c => c < K) (st_choices st)) as Hrange.
  { apply run_rounds_inv in Hrun as (d & best & _ & _ & Hloop).
    apply (for_each_seq_invariant _
             (fun i st => length (st_params st) = K
                          /\ Forall (fun c => c < K) (st_choices st))
             n 0 _ st) in Hloop; [apply Hloop | |].
    - cbn. split; [apply length_replicate | constructor].
    - clear. intros i st st' _ [HK Hall] Hround.
      apply round_inv in Hround
        as (c & g' & rewards_i & rc & rb & best_p & CTRs_i & p & params'
            & _ & _ & _ & _ & _ & _ & _ & Hadd & ->).
      cbn [st_params st_choices].
      split; [rewrite (belief_step_length (st_params st) params'); [exact HK|]|].
      + exists c. eauto.
      + apply Forall_app. split; [exact Hall|]. constructor; [|constructor].
        apply add_one_inv in Hadd as (a & b & Hc & _).
        apply lookup_lt_Some in Hc. lia. }
  split; [exact Hrange|]. rewrite pulls_total by exact Hrange. exact Hlen.
Qed.

End RegretBounds.

Lemma returned_regret_bounded_witness :
  run_bandit_dynamic_alg 2 [[true; false]; [false; true]; [true; true]]
    (Np.tile [0.3; 0.6]%Q 3) random ([1; 0; 1] : Tape.tape) = Ret ([0; 1; 1]%Q, [])
  /\ (- inject_Z (Z.of_nat (1 + 1)) <= 1 /\ 1 <= inject_Z (Z.of_nat (1 + 1)))%Q.
Proof.
  assert (run_bandit_dynamic_alg 2 [[true; false]; [false; true]; [true; true]]
            (Np.tile [0.3; 0.6]%Q 3) random ([1; 0; 1] : Tape.tape)
          = Ret ([0; 1; 1]%Q, [])) as Hrun by (vm_compute; reflexivity).
  split; [exact Hrun|].
  destruct (returned_regret_bounded _ _ _ _ _ _ _ Hrun) as [Hbound _].
  apply (Hbound 1 1%Q). reflexivity.
Defined.

Lemma best_arm_has_no_regret_witness :
  exists out g' st,
    run_bandit_dynamic_alg 2 [[true; false]; [false; true]; [true; true]]
      (Np.tile [0.3; 0.6]%Q 3) random ([1; 1; 1] : Tape.tape) = Ret (out, g')
    /\ run_rounds 3 2 [[true; false]; [false; true]; [true; true]]
         (Np.tile [0.3; 0.6]%Q 3) random ([1; 1; 1] : Tape.tape) = Ret st
    /\ st_choices st = [1; 1; 1]
    /\ forall i y, out !! i = Some y -> (y == 0)%Q.
Proof.
  destruct (run_bandit_dynamic_alg 2 [[true; false]; [false; true]; [true; true]]
              (Np.tile [0.3; 0.6]%Q 3) random ([1; 1; 1] : Tape.tape))
    as [[out g']| |] eqn:Hrun; [|vm_compute in Hrun; discriminate..].
  destruct (run_rounds 3 2 [[true; false]; [false; true]; [true; true]]
              (Np.tile [0.3; 0.6]%Q 3) random ([1; 1; 1] : Tape.tape))
    as [st| |] eqn:Hst; [|vm_compute in Hst; discriminate..].
  exists out, g', st. split; [reflexivity|]. split; [reflexivity|].
  assert (st_choices st = [1; 1; 1]) as Hchoices.
  { vm_compute in Hst. injection Hst as <-. reflexivity. }
  split; [exact Hchoices|].
  apply (best_arm_has_no_regret 2 [[true; false]; [false; true]; [true; true]]
           (Np.tile [0.3; 0.6]%Q 3) random ([1; 1; 1] : Tape.tape) out g' st
           [0.3; 0.6]%Q 1 Hrun Hst eq_refl eq_refl).
  rewrite Hchoices. intros [|[|[|i]]] c [= <-]; reflexivity.
Defined.

Lemma chosen_arms_in_range_witness :
  exists st,
    run_rounds 3 2 [[true; false]; [false; true]; [true; true]]
      (Np.tile [0.3; 0.6]%Q 3) random ([1; 0; 1] : Tape.tape) = Ret st
    /\ Forall (fun c => c < 2) (st_choices st).
Proof.
  destruct (run_rounds 3 2 [[true; false]; [false; true]; [true; true]]
              (Np.tile [0.3; 0.6]%Q 3) random ([1; 0; 1] : Tape.tape))
    as [st| |] eqn:Hrun; [|vm_compute in Hrun; discriminate..].
  exists st. split; [reflexivity|].
  apply (chosen_arms_in_range _ _ _ _ _ _ _ Hrun).
Defined.

(** ** The probabilities the driver passes *)

Lemma Qmax_same (x : Q) : Qmax x x = x.
Proof. unfold Qmax, GenericMinMax.gmax. destruct (x ?= x)%Q; reflexivity. Qed.

Lemma zip_with_Qmax_same (v : list Q) : zip_with Qmax v v = v.
Proof. induction v as [|x v IH]; [reflexivity|]. cbn. rewrite Qmax_same, IH. reflexivity. Qed.

(** [np.max] down the rows of a tiled vector gives the vector back. *)
Lemma max_axis0_tile (v : list Q) (n : nat) :
  0 < n -> Np.max_axis0 (Np.tile v n) = Ret v.
Proof.
  destruct n as [|n]; [lia|]. intros _. unfold Np.tile. cbn. f_equal.
  induction n as [|n IH]; [reflexivity|]. cbn. rewrite zip_with_Qmax_same. exact IH.
Qed.

Section TiledProbabilities.

Context {G : Type} `{RandomSource G}.

Lemma run_rounds_regret (n K : nat) (true_rewards : list (list bool))
    (CTRs : list (list Q)) (choice_func : Policy) (g : G) (st : loop_state)
    (bandit_distri : list Q) (best : nat) :
  Np.max_axis0 CTRs = Ret bandit_distri ->
  Np.argmax bandit_distri = Ret best ->
  run_rounds n K true_rewards CTRs choice_func g = Ret st ->
  length (st_regret st) = length true_rewards
  /\ forall i, i < n ->
       exists c CTRs_i p best_p,
         st_choices st !! i = Some c
         /\ CTRs !! i = Some CTRs_i
         /\ CTRs_i !! c = Some p
         /\ bandit_distri !! best = Some best_p
         /\ st_regret st !! i = Some (best_p - p)%Q.
Proof.
  intros Hd Hb (bandit_distri' & best' & Hd' & Hb' & Hloop)%run_rounds_inv.
  rewrite Hd in Hd'. injection Hd' as <-. rewrite Hb in Hb'. injection Hb' as <-.
  apply (for_each_seq_invariant _
           (fun n st =>
              (length (st_regret st) = length true_rewards
               /\ length (st_choices st) = n)
              /\ forall i, i < n ->
                   exists c CTRs_i p best_p,
                     st_choices st !! i = Some c
                     /\ CTRs !! i = Some CTRs_i
                     /\ CTRs_i !! c = Some p
                     /\ bandit_distri !! best = Some best_p
                     /\ st_regret st !! i = Some (best_p - p)%Q)
           n 0 _ st) in Hloop.
  - destruct Hloop as [[Hlen _] Hall]. auto.
  - cbn. split; [split; [apply length_replicate | reflexivity]|]. intros i Hi. lia.
  - clear Hloop st. intros i st st' _ [[Hlen Hcs] Hreg] Hround.
    apply round_inv in Hround
      as (c & g' & rewards_i & rc & rb & best_p & CTRs_i & p & params'
          & _ & Hrow & _ & _ & Hbp & Hci & Hp & _ & ->).
    cbn [st_regret st_choices].
    split; [split; [rewrite length_insert; exact Hlen | rewrite length_app, Hcs; cbn; lia]|].
    intros j Hj. destruct (decide (j = i)) as [->|Hne].
    + exists c, CTRs_i, p, best_p.
      split; [apply lookup_snoc_Some; right; auto|].
      repeat (split; [assumption|]).
      apply list_lookup_insert_eq. rewrite Hlen. eapply lookup_lt_Some, Hrow.
    + destruct (Hreg j ltac:(lia)) as (c0 & C0 & p0 & bp0 & Hc0 & HC0 & Hp0 & Hbp0 & Hr0).
      exists c0, C0, p0, bp0.
      split; [apply lookup_app_l_Some, Hc0|].
      repeat (split; [assumption|]).
      rewrite list_lookup_insert_ne by congruence. exact Hr0.
Qed.

(** X16 (the expected regret).  When the probabilities are one vector
    tiled over the rounds, as the driver passes them, the best arm of a
    run is the first arm of greatest probability in that vector, and the
    expected regret the runner writes for a round (and then discards) is
    the gap between that greatest probability and the probability of the
    arm chosen, which is never negative. *)
Theorem expected_regret_is_probability_gap (n K N : nat)
    (true_rewards : list (list bool)) (v : list Q)
    (choice_func : Policy) (g : G) (st : loop_state) :
  0 < N ->
  run_rounds n K true_rewards (Np.tile v N) choice_func g = Ret st ->
  exists best best_p,
    Np.max_axis0 (Np.tile v N) = Ret v
    /\ Np.argmax v = Ret best
    /\ first_max v best
    /\ v !! best = Some best_p
    /\ forall i, i < n ->
         exists c p,
           st_choices st !! i = Some c
           /\ v !! c = Some p
           /\ st_regret st !! i = Some (best_p - p)%Q
           /\ (0 <= best_p - p)%Q.
Proof.
  intros HN Hrun. pose proof (max_axis0_tile v N HN) as Hd.
  destruct (run_rounds_inv _ _ _ _ _ _ _ Hrun) as (d & best & Hd' & Hb & _).
  rewrite Hd in Hd'. injection Hd' as <-.
  pose proof (argmax_first_max _ _ Hb) as Hmax.
  destruct Hmax as (best_p & Hbp & Hall & Hfirst).
  exists best, best_p. split; [exact Hd|]. split; [exact Hb|].
  split; [exists best_p; auto|]. split; [exact Hbp|].
  destruct (run_rounds_regret _ _ _ _ _ _ _ _ _ Hd Hb Hrun) as [_ Hreg].
  intros i Hi. destruct (Hreg i Hi) as (c & CTRs_i & p & bp & Hc & Hci & Hp & Hbp' & Hr).
  rewrite Hbp in Hbp'. injection Hbp' as <-.
  apply lookup_replicate in Hci as [-> _].
  exists c, p. repeat (split; [assumption|]).
  specialize (Hall c p Hp). lra.
Qed.

End TiledProbabilities.

Lemma expected_regret_is_probability_gap_witness :
  exists st,
    run_rounds 3 2 [[true; false]; [false; true]; [true; true]]
      (Np.tile [0.3; 0.6]%Q 3) random ([1; 0; 1] : Tape.tape) = Ret st
    /\ Np.argmax [0.3; 0.6]%Q = Ret 1.
Proof.
  destruct (run_rounds 3 2 [[true; false]; [false; true]; [true; true]]
              (Np.tile [0.3; 0.6]%Q 3) random ([1; 0; 1] : Tape.tape))
    as [st| |] eqn:Hrun; [|vm_compute in Hrun; discriminate..].
  exists st. split; [reflexivity|].
  destruct (expected_regret_is_probability_gap 3 2 3 _ _ _ _ _ ltac:(lia) Hrun)
    as (best & best_p & _ & Hb & _).
  reflexivity.
Defined.

(** ** The driver does not raise *)

Lemma add_to_column_ret (n : nat) (regret_accumulator : list (list Q)) (j : nat)
    (v : list Q) :
  has_shape n 6 regret_accumulator ->
  length v = n ->
  exists acc', add_to_column regret_accumulator j v = Ret acc' /\ has_shape n 6 acc'.
Proof.
  intros [Hlen Hrows] Hv. unfold add_to_column.
  rewrite Hlen, Hv, Nat.eqb_refl. eexists. split; [reflexivity|]. split.
  - rewrite length_zip_with. lia.
  - apply Forall_forall. intros row (i & r & x & -> & Hr & _)%elem_of_lookup_zip_with.
    rewrite length_alter. rewrite Forall_lookup in Hrows. apply (Hrows i r Hr).
Qed.

Section SafeDriver.

Context {G : Type} `{RandomSource G}.
Variables np_sqrt np_log : Q -> Q.

Lemma generate_ret (CTRs : list (list Q)) (num_samples K : nat) (g : G) :
  has_shape num_samples K CTRs ->
  exists true_rewards g',
    generate_bernoulli_bandit_data CTRs num_samples K g = Ret (true_rewards, g')
    /\ has_shape num_samples K true_rewards.
Proof.
  intros Hshape. destruct (rand_matrix_spec num_samples K g) as [Hu _].
  destruct (less_matrix_ret _ _ _ _ Hu Hshape) as (m & Hm & Hm_shape).
  exists m, (rand_matrix num_samples K g).2. split; [|exact Hm_shape].
  unfold generate_bernoulli_bandit_data.
  destruct (rand_matrix num_samples K g) as [u g1]. cbn [fst snd] in *.
  rewrite Hm. reflexivity.
Qed.

Lemma run_and_accumulate_finishes (may_starve : Prop) (K n i j : nat)
    (true_rewards : list (list bool)) (CTRs : list (list Q)) (choice_func : Policy)
    (s : driver_state (G := G)) :
  0 < K -> 0 < n ->
  has_shape n K true_rewards ->
  has_shape n K CTRs ->
  policy_finishes may_starve K choice_func ->
  has_shape n 6 (d_regret_accumulator s) ->
  finishes may_starve (fun s' => has_shape n 6 (d_regret_accumulator s'))
    (run_and_accumulate K i j true_rewards CTRs choice_func s).
Proof.
  intros HK Hn Htr Hc Hpolicy Hacc. unfold run_and_accumulate.
  assert (length true_rewards = n) as Hlen by apply Htr.
  eapply bind_finishes.
  { apply (run_bandit_dynamic_alg_finishes may_starve K true_rewards CTRs choice_func);
      rewrite ?Hlen; auto. }
  intros [out g'] Hout. cbn [fst] in Hout. rewrite Hlen in Hout.
  destruct (add_to_column_ret n _ j out Hacc Hout) as (acc' & -> & Hacc'). cbn.
  apply finishes_ret. exact Hacc'.
Qed.

Lemma experiment_finishes (fuel num_samples K : nat) (CTRs : list (list Q)) (i : nat)
    (s : driver_state (G := G)) :
  0 < K -> 0 < num_samples ->
  has_shape num_samples K CTRs ->
  has_shape num_samples 6 (d_regret_accumulator s) ->
  finishes True (fun s' => has_shape num_samples 6 (d_regret_accumulator s'))
    (experiment np_sqrt np_log fuel num_samples K CTRs i s).
Proof.
  intros HK Hn Hc Hacc. unfold experiment.
  destruct (generate_ret CTRs num_samples K (d_rng s) Hc) as (tr & g0 & -> & Htr). cbn.
  pose proof (fun p => proj1 (policy_of_finishes np_sqrt np_log K fuel p HK)) as Hpol.
  eapply bind_finishes;
    [apply (run_and_accumulate_finishes True K num_samples); auto; apply (Hpol Random)|].
  intros s1 H1. eapply bind_finishes;
    [apply (run_and_accumulate_finishes True K num_samples); auto; apply (Hpol Naive)|].
  intros s2 H2. eapply bind_finishes;
    [apply (run_and_accumulate_finishes True K num_samples); auto;
     apply (Hpol EpsilonGreedy)|].
  intros s3 H3. eapply bind_finishes;
    [apply (run_and_accumulate_finishes True K num_samples); auto; apply (Hpol UCBTuned)|].
  intros s4 H4. eapply bind_finishes;
    [apply (run_and_accumulate_finishes True K num_samples); auto;
     apply (Hpol UCBBernoulli95)|].
  intros s5 H5.
  apply (run_and_accumulate_finishes True K num_samples); auto.
  apply (Hpol ThompsonSampling).
Qed.

(** X17 (the driver never raises).  With at least one arm and one round
    per episode, and for any number of experiments, the module either
    runs to the end of its main loop, with a regret accumulator of
    num_samples rows and 6 columns, or is stopped inside the resampling
    loop of [epsilon_greedy]; it never raises.  So it is for the
    constants of the source (10000 rounds, 5 arms, 100 experiments). *)
Theorem main_never_raises (fuel num_samples K number_experiments : nat) (g : G) :
  0 < K ->
  0 < num_samples ->
  (main np_sqrt np_log fuel num_samples K number_experiments g = OutOfFuel
   \/ exists s,
        main np_sqrt np_log fuel num_samples K number_experiments g = Ret s
        /\ has_shape num_samples 6 (d_regret_accumulator s))
  /\ (program np_sqrt np_log fuel g = OutOfFuel
      \/ exists s,
           program np_sqrt np_log fuel g = Ret s
           /\ has_shape (100 * 100) 6 (d_regret_accumulator s)).
Proof.
  assert (forall n k N, 0 < k -> 0 < n ->
            finishes True (fun s => has_shape n 6 (d_regret_accumulator s))
              (main np_sqrt np_log fuel n k N g)) as Hmain.
  { intros n k N Hk Hn. unfold main.
    pose proof (rand_vector_spec k g) as [Hv _]. destruct (rand_vector k g) as [v g0].
    cbn [fst] in Hv.
    assert (has_shape n k (Np.tile v n)) as Hc.
    { split; [apply length_replicate|]. apply Forall_forall.
      intros r [-> _]%elem_of_replicate. exact Hv. }
    apply for_each_finishes.
    - intros i s _ Hs. apply experiment_finishes; auto.
    - cbn. split; [apply length_replicate|]. apply Forall_forall.
      intros r [-> _]%elem_of_replicate. reflexivity. }
  intros HK Hn. split.
  - destruct (Hmain num_samples K number_experiments HK Hn) as [[_ Hout]|(s & Hs & Hacc)];
      [left; exact Hout | right; eauto].
  - unfold program.
    destruct (Hmain (100 * 100) 5 100 ltac:(lia) ltac:(lia)) as [[_ Hout]|(s & Hs & Hacc)];
      [left; exact Hout | right; eauto].
Qed.

Lemma rand_matrix_no_column (n : nat) (g : G) :
  rand_matrix n 0 g = (replicate n [], g).
Proof. induction n as [|n IH]; cbn; [|rewrite IH]; reflexivity. Qed.

Lemma less_matrix_no_column (n : nat) :
  less_matrix (replicate n []) (replicate n []) = Ret (replicate n []).
Proof. induction n as [|n IH]; cbn; [|rewrite IH]; reflexivity. Qed.

(** X18 (no arm, no round).  With at least one experiment the module
    raises [ValueError] when it is given no arm (K = 0, and at least one
    round) and when it is given no round (num_samples = 0): the first
    call of the runner fails on the maximum of the probabilities.  With
    no experiment it draws the K probabilities and stops, the
    accumulator all zeros and no call made. *)
Theorem main_degenerate (fuel num_samples K number_experiments : nat) (g : G) :
  (0 < number_experiments -> 0 < num_samples -> K = 0 ->
     main np_sqrt np_log fuel num_samples K number_experiments g = Raise ValueError)
  /\ (0 < number_experiments -> num_samples = 0 ->
      main np_sqrt np_log fuel num_samples K number_experiments g = Raise ValueError)
  /\ (number_experiments = 0 ->
      main np_sqrt np_log fuel num_samples K number_experiments g
      = Ret {| d_regret_accumulator := replicate num_samples (replicate 6 0%Q);
               d_calls := [];
               d_rng := (rand_vector K g).2 |}).
Proof.
  split; [|split].
  - intros HN Hn ->. unfold main. cbn [rand_vector].
    destruct number_experiments as [|N]; [lia|].
    cbn [seq]. apply for_each_raise_first.
    unfold experiment, generate_bernoulli_bandit_data. cbn [d_rng].
    rewrite rand_matrix_no_column.
    change (Np.tile [] num_samples) with (replicate num_samples (@nil Q)).
    rewrite less_matrix_no_column. cbn.
    unfold run_and_accumulate, run_bandit_dynamic_alg, run_rounds. cbn [d_rng].
    change (replicate num_samples (@nil Q)) with (Np.tile (@nil Q) num_samples).
    rewrite (max_axis0_tile [] num_samples Hn). reflexivity.
  - intros HN ->. unfold main. destruct (rand_vector K g) as [v g0].
    destruct number_experiments as [|N]; [lia|].
    cbn [seq]. apply for_each_raise_first. reflexivity.
  - intros ->. unfold main. destruct (rand_vector K g) as [v g0]. reflexivity.
Qed.

End SafeDriver.

Lemma main_never_raises_witness :
  0 < 2
  /\ exists s,
       main Tape.sqrt_approx Tape.log_approx 5 2 2 2
         ([300; 600; 100; 700; 500; 500; 1; 0; 20; 30; 417; 233; 650; 120;
           710; 45; 3; 2; 950; 400; 111; 222; 333; 444] : Tape.tape) = Ret s
       /\ has_shape 2 6 (d_regret_accumulator s).
Proof.
  split; [lia|].
  destruct (main_never_raises Tape.sqrt_approx Tape.log_approx 5 2 2 2
              ([300; 600; 100; 700; 500; 500; 1; 0; 20; 30; 417; 233;
                650; 120; 710; 45; 3; 2; 950; 400; 111; 222; 333; 444] : Tape.tape)
              ltac:(lia) ltac:(lia)) as [[Hout|Hret] _].
  - vm_compute in Hout. discriminate.
  - exact Hret.
Defined.

(** ** The statistics of a reachable belief state *)

Lemma Qsquare_nonneg (x : Q) : (0 <= x * x)%Q.
Proof.
  destruct (Qlt_le_dec x 0) as [Hneg|Hpos].
  - assert (x * x == (- x) * (- x))%Q as -> by ring.
    apply Qmult_le_0_compat; lra.
  - apply Qmult_le_0_compat; exact Hpos.
Qed.

(** X19 (means and variances in an episode).  In a belief state reached
    from the (1, 1) prior, the empirical mean of every arm is strictly
    between 0 and 1, its variance mean - mean^2 is between 0 and 1/4,
    and the quantity [UCB_bernoulli] takes the square root of,
    variance / n_k, is not negative. *)
Theorem reachable_means_and_variances (K : nat) (bs : BeliefState) (k : nat) (a b : Q) :
  reachable_beliefs K bs ->
  bs !! k = Some (a, b) ->
  let n_k := (a + b)%Q in
  let mean := (a / n_k)%Q in
  let variance := (mean - mean ^ 2)%Q in
  empirical_means bs !! k = Some mean
  /\ (0 < mean /\ mean < 1)%Q
  /\ (0 <= variance /\ variance <= 1 # 4)%Q
  /\ (0 <= variance / n_k)%Q.
Proof.
  intros Hreach Hrow. cbv zeta.
  destruct (reachable_beliefs_row _ _ _ _ _ Hreach Hrow) as (_ & Ha & Hb).
  unfold prior_a, prior_b in *.
  assert (0 < a + b)%Q as Hn by lra.
  assert (0 < a / (a + b))%Q as Hm0.
  { apply Qlt_shift_div_l; [exact Hn | lra]. }
  assert (a / (a + b) < 1)%Q as Hm1.
  { apply Qlt_shift_div_r; [exact Hn | lra]. }
  set (m := (a / (a + b))%Q) in *.
  assert (m ^ 2 == m * m)%Q as Hsq by reflexivity.
  assert (0 <= m - m ^ 2 /\ m - m ^ 2 <= 1 # 4)%Q as [Hv0 Hv1].
  { rewrite Hsq. split; [nra|].
    pose proof (Qsquare_nonneg (m - (1 # 2))) as Hsquare.
    assert ((m - (1 # 2)) * (m - (1 # 2)) == (1 # 4) - (m - m * m))%Q as Heq by ring.
    rewrite Heq in Hsquare. lra. }
  split.
  { unfold empirical_means. rewrite list_lookup_fmap, Hrow. reflexivity. }
  split; [auto|]. split; [auto|].
  apply Qle_shift_div_l; [exact Hn | lra].
Qed.

Lemma reachable_means_and_variances_witness :
  reachable_beliefs 2 [(1 + 1, 1); (1, 1)]%Q
  /\ (0 < (1 + 1) / (1 + 1 + 1) /\ (1 + 1) / (1 + 1 + 1) < 1)%Q.
Proof.
  assert (reachable_beliefs 2 [(1 + 1, 1); (1, 1)]%Q) as Hreach.
  { apply rtc_once. exists 0, 0. reflexivity. }
  split; [exact Hreach|].
  apply (reachable_means_and_variances 2 [(1 + 1, 1); (1, 1)]%Q 0 (1 + 1) 1 Hreach eq_refl).
Defined.

(** ** Naive explores the arms in turn *)

Lemma first_min_unique (v : list Q) (k k' : nat) :
  first_min v k -> first_min v k' -> k = k'.
Proof.
  intros (x & Hx & Hall & Hbefore) (x' & Hx' & Hall' & Hbefore').
  destruct (Nat.lt_trichotomy k k') as [Hlt|[Heq|Hgt]]; [|exact Heq|].
  - pose proof (Hbefore' k x Hlt Hx). pose proof (Hall k' x' Hx'). lra.
  - pose proof (Hbefore k' x' Hgt Hx'). pose proof (Hall' k x Hx). lra.
Qed.

Lemma succ_div_mod (i K : nat) :
  0 < K ->
  (i mod K + 1 < K /\ S i / K = i / K /\ S i mod K = i mod K + 1)
  \/ (i mod K + 1 = K /\ S i / K = i / K + 1 /\ S i mod K = 0).
Proof.
  intros HK. pose proof (Nat.div_mod_eq i K) as Hi.
  pose proof (Nat.mod_upper_bound i K ltac:(lia)) as Hr.
  destruct (decide (i mod K + 1 < K)) as [Hlt|Hge].
  - left. split; [exact Hlt|].
    assert (S i = K * (i / K) + (i mod K + 1)) as Hs by lia.
    split; [symmetry; eapply Nat.div_unique; [|exact Hs]; lia
           |symmetry; eapply Nat.mod_unique; [|exact Hs]; lia].
  - right. split; [lia|].
    assert (S i = K * (i / K + 1) + 0) as Hs by lia.
    split; [symmetry; eapply Nat.div_unique; [|exact Hs]; lia
           |symmetry; eapply Nat.mod_unique; [|exact Hs]; lia].
Qed.

Lemma naive_on_swept (number_to_explore : Q) (K i : nat) (bs : BeliefState) :
  0 < K ->
  swept K i bs ->
  (inject_Z (Z.of_nat (i / K)) + 2 < number_to_explore)%Q ->
  naive number_to_explore bs = Ret (i mod K).
Proof.
  intros HK [Hlen Hrows] Hbudget.
  pose proof (Nat.mod_upper_bound i K ltac:(lia)) as Hr.
  destruct (lookup_lt_is_Some_2 bs (i mod K)) as [[a b] Hrow]; [lia|].
  pose proof (Hrows _ _ _ Hrow) as Hab.
  destruct (decide (i mod K < i mod K)) as [Habs|_]; [lia|].
  assert (first_min (row_sums bs) (i mod K)) as Hmin.
  { exists (a + b)%Q. unfold row_sums. split; [rewrite list_lookup_fmap, Hrow; reflexivity|].
    split.
    - intros j y Hj. rewrite list_lookup_fmap in Hj.
      destruct (bs !! j) as [[a' b']|] eqn:Hj'; [|discriminate]. injection Hj as <-.
      cbn [fst snd]. pose proof (Hrows _ _ _ Hj') as Hab'.
      destruct (decide (j < i mod K)); lra.
    - intros j y Hlt Hj. rewrite list_lookup_fmap in Hj.
      destruct (bs !! j) as [[a' b']|] eqn:Hj'; [|discriminate]. injection Hj as <-.
      cbn [fst snd]. pose proof (Hrows _ _ _ Hj') as Hab'.
      destruct (decide (j < i mod K)); [lra | lia]. }
  unfold naive. cbv zeta.
  assert (Np.any_lt (row_sums bs) number_to_explore = true) as ->.
  { apply any_lt_true. exists (i mod K), (a + b)%Q. split; [|lra].
    unfold row_sums. rewrite list_lookup_fmap, Hrow. reflexivity. }
  destruct (argmin_total (row_sums bs)) as [k Hk].
  { intros Hnil. apply (f_equal length) in Hnil. rewrite row_sums_length in Hnil.
    cbn in Hnil. lia. }
  rewrite Hk. cbn. f_equal.
  apply (first_min_unique (row_sums bs)); [apply argmin_first_min, Hk | exact Hmin].
Qed.

Lemma swept_step (K i : nat) (bs bs' : BeliefState) (u : nat) :
  0 < K ->
  swept K i bs ->
  add_one bs (i mod K) u = Ret bs' ->
  swept K (S i) bs'.
Proof.
  intros HK [Hlen Hrows] Hadd.
  pose proof (belief_step_length bs bs' ltac:(exists (i mod K), u; exact Hadd)) as Hlen'.
  split; [lia|].
  apply add_one_inv in Hadd as (a & b & Hc & Hcase).
  apply lookup_lt_Some in Hc as Hlt. pose proof (Hrows _ _ _ Hc) as Hab.
  destruct (decide (i mod K < i mod K)) as [Habs|_]; [lia|].
  intros k a' b' Hk.
  assert (if decide (k = i mod K)
          then (a' + b' == a + b + 1)%Q
          else bs !! k = Some (a', b')) as Hrow.
  { destruct (decide (k = i mod K)) as [->|Hne].
    - destruct Hcase as [[_ ->]|[_ ->]];
        rewrite list_lookup_insert_eq in Hk by exact Hlt; injection Hk as <- <-; ring.
    - destruct Hcase as [[_ ->]|[_ ->]];
        rewrite list_lookup_insert_ne in Hk by congruence; exact Hk. }
  pose proof (inject_nat_S (i / K)) as HS.
  destruct (succ_div_mod i K HK) as [(Hr & -> & ->)|(Hr & -> & ->)].
  - destruct (decide (k = i mod K)) as [->|Hne].
    + destruct (decide (i mod K < i mod K + 1)); [lra | lia].
    + pose proof (Hrows _ _ _ Hrow) as Hab'.
      destruct (decide (k < i mod K)), (decide (k < i mod K + 1)); try lia; lra.
  - set (q := inject_Z (Z.of_nat (i / K))) in *.
    set (q' := inject_Z (Z.of_nat (i / K + 1))) in *.
    destruct (decide (k < 0)); [lia|].
    destruct (decide (k = i mod K)) as [->|Hne]; [lra|].
    pose proof (Hrows _ _ _ Hrow) as Hab'.
    apply lookup_lt_Some in Hrow.
    destruct (decide (k < i mod K)); [lra | lia].
Qed.

Section NaiveInTurn.

Context {G : Type} `{RandomSource G}.

(** X20 (naive explores in turn).  Run as the policy of an episode over
    K arms with a budget that is at least m + 2, [naive] pulls the arms
    in turn for the first K m rounds: round i pulls arm i mod K (with
    the default budget 100, m = 98). *)
Theorem naive_explores_in_turn (number_to_explore : Q) (m n K : nat)
    (true_rewards : list (list bool)) (CTRs : list (list Q)) (g : G)
    (st : loop_state) :
  (inject_Z (Z.of_nat m) + 2 <= number_to_explore)%Q ->
  n <= K * m ->
  run_rounds n K true_rewards CTRs (as_choice (naive number_to_explore)) g = Ret st ->
  forall i, i < n -> st_choices st !! i = Some (i mod K).
Proof.
  intros Hbudget Hn Hrun.
  destruct (decide (K = 0)) as [->|HK]; [intros i Hi; lia|].
  apply run_rounds_inv in Hrun as (d & best & _ & _ & Hloop).
  apply (for_each_seq_invariant _
           (fun i st =>
              i <= n -> swept K i (st_params st)
              /\ length (st_choices st) = i
              /\ forall j, j < i -> st_choices st !! j = Some (j mod K))
           n 0 _ st) in Hloop.
  - apply Hloop.
  - intros _. cbn [initial_state st_params st_choices].
    split; [|split; [reflexivity | intros j Hj; lia]].
    split; [apply length_replicate|].
    intros k a b (Hk & -> & ->)%prior_beliefs_row.
    rewrite Nat.Div0.div_0_l, Nat.Div0.mod_0_l.
    destruct (decide (k < 0)); [lia|]. unfold prior_a, prior_b. cbn. ring.
  - clear Hloop st. intros i st st' Hi IH Hround HSi.
    destruct (IH ltac:(lia)) as (Hswept & Hlen & Hchoices).
    apply round_inv in Hround
      as (c & g' & rewards_i & rc & rb & best_p & CTRs_i & p & params'
          & Hchoice & _ & _ & _ & _ & _ & _ & Hadd & ->).
    assert (c = i mod K) as ->.
    { unfold as_choice in Hchoice.
      rewrite (naive_on_swept number_to_explore K i (st_params st)) in Hchoice;
        [cbn in Hchoice; congruence | lia | exact Hswept |].
      assert (i / K < m) as Hq by (apply Nat.Div0.div_lt_upper_bound; lia).
      assert (inject_Z (Z.of_nat (i / K)) + 1 <= inject_Z (Z.of_nat m))%Q; [|lra].
      rewrite <- inject_nat_S. rewrite <- Zle_Qle. lia. }
    cbn [st_params st_choices].
    split; [eapply swept_step; [lia | exact Hswept | exact Hadd]|].
    split; [rewrite length_app, Hlen; cbn; lia|].
    intros j Hj. destruct (decide (j = i)) as [->|Hne].
    + apply lookup_snoc_Some. right. auto.
    + apply lookup_app_l_Some, Hchoices. lia.
  - cbn. lia.
Qed.

End NaiveInTurn.

Lemma naive_explores_in_turn_witness :
  exists st,
    run_rounds 3 2 [[true; false]; [false; true]; [true; true]]
      (Np.tile [0.3; 0.6]%Q 3) (as_choice (naive number_to_explore_default))
      ([] : Tape.tape) = Ret st
    /\ st_choices st !! 2 = Some 0.
Proof.
  destruct (run_rounds 3 2 [[true; false]; [false; true]; [true; true]]
              (Np.tile [0.3; 0.6]%Q 3) (as_choice (naive number_to_explore_default))
              ([] : Tape.tape))
    as [st| |] eqn:Hrun; [|vm_compute in Hrun; discriminate..].
  exists st. split; [reflexivity|].
  apply (naive_explores_in_turn number_to_explore_default 98 3 2 _ _ _ _
           ltac:(vm_compute; discriminate) ltac:(lia) Hrun 2).
  lia.
Defined.
